(** * A shallow embedding of the Meteora liquidity rebalancer

    This development models [MeteoraRebalancer] (src/src/utils/logger.ts)
    in Rocq.  JavaScript numbers are modelled as exact rationals [Q], bin
    indices as [Z]; where rounding matters (the range width and the split
    of the asset balancer) they are IEEE 754 binary64 doubles, as given by
    the Standard Library's [SpecFloat].

    Effects are handled with a state and error monad [M].  The state holds
    the controller's private fields, the configuration read from the
    environment, an immutable description of the outside world (wallet,
    Meteora pool, Jupiter swap, pool HTTP API) and a call clock.  Every
    external call reads the world's answer at the current clock value
    and then advances it, so a world can return different answers to
    successive calls (transient failures, delayed visibility, and so on).
    Every observable effect (external call, sleep, alert, log line) is
    appended to a trace.  Console output is not modelled. *)

From Stdlib Require Import QArith Qround Qminmax ZArith Lqa Lia Ascii SpecFloat.
From stdpp Require Import base gmap strings list.

Open Scope string_scope.
Open Scope list_scope.

(** ** JavaScript numbers as binary64 doubles *)

Definition js_prec : Z := 53.
Definition js_emax : Z := 1024.

Definition js_add := SFadd js_prec js_emax.
Definition js_sub := SFsub js_prec js_emax.
Definition js_mul := SFmul js_prec js_emax.
Definition js_div := SFdiv js_prec js_emax.

(** [x < y]; false when either side is [NaN]. *)
Definition js_lt (x y : spec_float) : bool := SFltb x y.

(** The double of an integer (exact below [2^53]). *)
Definition js_of_Z (z : Z) : spec_float := binary_normalize js_prec js_emax z 0 false.

(** [Number("n e-k")], the double nearest to [n / 10^k]: a correctly
    rounded division of two exact doubles. *)
Definition js_decimal (n : Z) (k : nat) : spec_float :=
  js_div (js_of_Z n) (js_of_Z (10 ^ Z.of_nat k)).

(** [Math.ceil].  A finite double [m * 2^e] with [e >= 0] is an
    integer; otherwise its magnitude is [q + r / 2^-e]. *)
Definition Math_ceil (x : spec_float) : spec_float :=
  match x with
  | S754_finite s m e =>
      if Z.leb 0 e then x
      else
        let '(q, r) := Z.div_eucl (Zpos m) (2 ^ (- e)) in
        if s then (if Z.eqb q 0 then S754_zero true else js_of_Z (- q))
        else js_of_Z (if Z.eqb r 0 then q else q + 1)
  | _ => x
  end.

(** [Math.min] of two numbers. *)
Definition Math_min (x y : spec_float) : spec_float :=
  match x, y with
  | S754_nan, _ | _, S754_nan => S754_nan
  | S754_zero sx, S754_zero sy => S754_zero (sx || sy)
  | _, _ => if js_lt y x then y else x
  end.

(** ** Data model *)

(** A thrown JavaScript value: an [Error] with its message, or any other
    value (e.g. [undefined]), kept by its printed form. *)
Inductive Thrown :=
  | TError (message : string)
  | TOther (repr : string).

(** [s.includes(sub)]. *)
Definition includes (s sub : string) : bool :=
  match String.index 0 sub s with Some _ => true | None => false end.

(** Result of a computation: a value, or a thrown exception. *)
Inductive Res (A : Type) :=
  | Ok (a : A)
  | Exc (e : Thrown).
Arguments Ok {A} a.
Arguments Exc {A} e.

(** [type PoolDetails]. *)
Record PoolDetails := mkPoolDetails {
  binStep : Z;
  assetAMintAddress : string;
  assetBMintAddress : string;
  assetASymbol : string;
  assetBSymbol : string;
}.

(** The JSON body of [https://dlmm-api.meteora.ag/pair/<pool>]. *)
Record PoolApi := mkPoolApi {
  bin_step : Z;
  mint_x : string;
  mint_y : string;
  name : string;
}.

(** [BinLiquidity], the fields the code reads. *)
Record BinLiquidity := mkBin {
  binId : Z;
  pricePerToken : Q;
}.

(** [position.positionData], the fields the code reads. *)
Record PositionData := mkPosition {
  lowerBinId : Z;
  upperBinId : Z;
}.

(** Result of [meteora.removeLiquidity]. *)
Record RemoveResult := mkRemove {
  liquidityRemoved : Q * Q;
  feesClaimed : Q * Q;
}.

(** The outside world: the answer of each collaborator to the call made
    at a given clock value.  [getBalance None] is the native (SOL)
    balance. *)
Record World := mkWorld {
  w_getBalance : nat -> option string -> Res Q;
  w_getActiveBin : nat -> string -> Res BinLiquidity;
  w_getPositionsFromPool : nat -> string -> Res (list PositionData);
  w_swap : nat -> string -> string -> Q -> Res Q;
  w_addLiquidity : nat -> string -> Q -> Q -> option spec_float -> Res unit;
  w_removeLiquidity : nat -> string -> Res RemoveResult;
  w_fetchPair : nat -> string -> Res PoolApi;
}.

(** The external calls, as recorded in the trace. *)
Inductive CallTag :=
  | CGetBalance (mint : option string)
  | CGetActiveBin
  | CGetPositionsFromPool
  | CSwap (inputMint outputMint : string) (amount : Q)
  | CAddLiquidity (amount amountB : Q) (rangeInterval : option spec_float)
  | CRemoveLiquidity
  | CFetchPair.

(** [AlertType] of ./alerts. *)
Inductive AlertType := INFO | WARNING | ERROR | LOSS | PERFORMANCE_REPORT.

(** Alert messages, by the template the code formats them with. *)
Inductive AlertMsg :=
  | AmText (s : string)
  | AmRangeClip (rangeInterval : spec_float)
  | AmInsufficientNative (balance : Q)
  | AmError (where_ : string) (e : Thrown).

(** Lines written through [BalanceLogger]. *)
Inductive LogEntry :=
  | LgBalances (a b : Q) (prefix symA symB : string)
  | LgPrice (price : Q) (symA symB : string)
  | LgSwapped (amountIn : Q) (symIn : string) (amountOut : Q) (symOut : string)
  | LgOutOfRange (bin lower upper : Z)
  | LgWithdrew (pool : string) (a : Q) (symA : string) (b : Q) (symB : string).

Inductive Event :=
  | EvCall (c : CallTag) (ok : bool)
  | EvSleep (ms : Z)
  | EvAlert (t : AlertType) (m : AlertMsg)
  | EvLog (l : LogEntry).

(** Environment configuration: [METEORA_POSITION_RANGE_PER_SIDE_RELATIVE],
    [NATIVE_TOKEN_FEE_BUFFER] and [NATIVE_TOKEN_MIN_BALANCE]. *)
Record Config := mkConfig {
  cfg_rangeRel : spec_float;
  cfg_feeBuffer : Q;
  cfg_minBalance : Q;
}.

(** [Number(process.env.NATIVE_TOKEN_FEE_BUFFER || 0.1)] and
    [Number(process.env.NATIVE_TOKEN_MIN_BALANCE || 0.01)] when unset. *)
Definition defaultConfig (rangeRel : spec_float) : Config :=
  mkConfig rangeRel (1 # 10) (1 # 100).

Definition METERORA_MAX_BINS_PER_SIDE : Z := 34.

Definition TOTAL_BALANCE_PREFIX : string :=
  "Total usable balances after rebalancing".

(** The rebalancer's fields, together with configuration, world, clock
    and trace. *)
Record St := mkSt {
  poolAddress : string;
  _poolDetails : option PoolDetails;
  currLowerBinId : Z;
  currUpperBinId : Z;
  meteoraRangeInterval : option spec_float;
  cfg : Config;
  world : World;
  clock : nat;
  trace : list Event;
}.

Definition set_poolDetails (pd : option PoolDetails) (s : St) : St :=
  mkSt (poolAddress s) pd (currLowerBinId s) (currUpperBinId s)
    (meteoraRangeInterval s) (cfg s) (world s) (clock s) (trace s).

Definition set_bounds (lo hi : Z) (s : St) : St :=
  mkSt (poolAddress s) (_poolDetails s) lo hi
    (meteoraRangeInterval s) (cfg s) (world s) (clock s) (trace s).

Definition set_rangeInterval (ri : option spec_float) (s : St) : St :=
  mkSt (poolAddress s) (_poolDetails s) (currLowerBinId s) (currUpperBinId s)
    ri (cfg s) (world s) (clock s) (trace s).

Definition record_event (ev : Event) (s : St) : St :=
  mkSt (poolAddress s) (_poolDetails s) (currLowerBinId s) (currUpperBinId s)
    (meteoraRangeInterval s) (cfg s) (world s) (clock s) (trace s ++ [ev]).

Definition tick (s : St) : St :=
  mkSt (poolAddress s) (_poolDetails s) (currLowerBinId s) (currUpperBinId s)
    (meteoraRangeInterval s) (cfg s) (world s) (S (clock s)) (trace s).

(** ** The monad *)

Definition M (A : Type) : Type := St -> Res A * St.

Global Instance M_ret : MRet M := fun A a s => (Ok a, s).
Global Instance M_bind : MBind M := fun A B k m s =>
  match m s with
  | (Ok a, s') => k a s'
  | (Exc e, s') => (Exc e, s')
  end.

Definition throw {A} (e : Thrown) : M A := fun s => (Exc e, s).

(** [try { m } catch (e) { h(e) }]. *)
Definition catch {A} (m : M A) (h : Thrown -> M A) : M A := fun s =>
  match m s with
  | (Ok a, s') => (Ok a, s')
  | (Exc e, s') => h e s'
  end.

Definition gets {A} (f : St -> A) : M A := fun s => (Ok (f s), s).
Definition modify (f : St -> St) : M unit := fun s => (Ok tt, f s).
Definition emit (ev : Event) : M unit := modify (record_event ev).

Definition is_ok {A} (r : Res A) : bool :=
  match r with Ok _ => true | Exc _ => false end.

(** An external call: the world's answer at the current clock. *)
Definition ext {A} (c : CallTag) (sel : World -> nat -> Res A) : M A := fun s =>
  let r := sel (world s) (clock s) in
  (r, record_event (EvCall c (is_ok r)) (tick s)).

(** [await new Promise((resolve) => setTimeout(resolve, ms))]. *)
Definition sleep (ms : Z) : M unit := emit (EvSleep ms).

(** [sendAlert(type, message)]; delivery never raises into the core. *)
Definition sendAlert (t : AlertType) (m : AlertMsg) : M unit := emit (EvAlert t m).

(** [error instanceof Error && error.message.includes(sub)]. *)
Definition error_includes (e : Thrown) (sub : string) : bool :=
  match e with TError m => includes m sub | TOther _ => false end.

Definition isInsufficientFunds (e : Thrown) : bool :=
  error_includes e "insufficient funds".

(** ** [retry] *)

(** The [for (attempt = 0; attempt < retries; attempt++)] loop of [retry];
    [k] is the number of iterations left. *)
Fixpoint retry_loop {A} (fn : M A) (retries : nat) (delayMs : Z)
    (k attempt : nat) (lastError : Thrown) : M A :=
  match k with
  | O => throw lastError
  | S k' =>
      catch fn (fun error =>
        if isInsufficientFunds error then throw (TError "Insufficient funds")
        else
          (if Nat.ltb attempt (retries - 1)%nat then sleep delayMs else mret tt) ;;
          retry_loop fn retries delayMs k' (S attempt) error)
  end.

(** [retry(fn, retries = 5, delayMs = 5000)]; [lastError] starts out
    [undefined]. *)
Definition retry {A} (fn : M A) (retries : nat) (delayMs : Z) : M A :=
  retry_loop fn retries delayMs retries 0 (TOther "undefined").

(** ** The rebalancer *)

(** [<, >] on numbers. *)
Definition qlt (x y : Q) : bool := negb (Qle_bool y x).

(** [String.prototype.toLowerCase] on ASCII text. *)
Definition lower_ascii (c : ascii) : ascii :=
  let n := nat_of_ascii c in
  if Nat.leb 65 n && Nat.leb n 90 then ascii_of_nat (n + 32) else c.

Fixpoint toLowerCase (s : string) : string :=
  match s with
  | EmptyString => EmptyString
  | String c s' => String (lower_ascii c) (toLowerCase s')
  end.

(** [s.split(d)] for a one-character separator. *)
Fixpoint split_on (d : ascii) (s : string) : list string :=
  match s with
  | EmptyString => [EmptyString]
  | String c s' =>
      let rest := split_on d s' in
      if Ascii.eqb c d then EmptyString :: rest
      else match rest with
           | r :: rs => String c r :: rs
           | [] => [String c EmptyString]
           end
  end.

(** [balances[symbol]]; both keys are always present in the maps the code
    builds, so the default is never used. *)
Definition bal (m : gmap string Q) (k : string) : Q := default 0%Q (m !! k).

(** The [poolDetails] getter. *)
Definition poolDetails_get : M PoolDetails := fun s =>
  match _poolDetails s with
  | Some pd => (Ok pd, s)
  | None => (Exc (TError "Pool details not initialized. Make sure to call MeteoraRebalancer.loadInitialState()"), s)
  end.

Definition getBalance (mint : option string) : M Q :=
  ext (CGetBalance mint) (fun w n => w_getBalance w n mint).

(** [symbol.toLowerCase() === 'sol']. *)
Definition isNative (sym : string) : bool := String.eqb (toLowerCase sym) "sol".

(** The ternaries of [getUsableBalances]. *)
Definition usable (buffer : Q) (sym : string) (raw : Q) : Q :=
  if isNative sym then Qmax 0 (raw - buffer) else raw.

Definition getUsableBalances : M (gmap string Q) :=
  pd ← poolDetails_get;
  assetABalance ← getBalance (Some (assetAMintAddress pd));
  assetBBalance ← getBalance (Some (assetBMintAddress pd));
  c ← gets cfg;
  mret (<[assetBSymbol pd := usable (cfg_feeBuffer c) (assetBSymbol pd) assetBBalance]>
         (<[assetASymbol pd := usable (cfg_feeBuffer c) (assetASymbol pd) assetABalance]>
           (∅ : gmap string Q))).

Definition getPositionsFromPool (addr : string) : M (list PositionData) :=
  ext CGetPositionsFromPool (fun w n => w_getPositionsFromPool w n addr).

(** The loop of [retryGetPositions(retries = 5, delayMs = 5000)]; [k] is
    the number of iterations left. *)
Fixpoint retryGetPositions_loop (retries : nat) (delayMs : Z) (k attempt : nat)
    (lastResult : list PositionData) : M (list PositionData) :=
  match k with
  | O => mret lastResult
  | S k' =>
      let pause := if Nat.ltb attempt (retries - 1)%nat then sleep delayMs else mret tt in
      addr ← gets poolAddress;
      o ← catch (positions ← getPositionsFromPool addr; mret (Some positions))
                (fun error =>
                   if isInsufficientFunds error then throw (TError "Insufficient funds")
                   else mret None);
      match o with
      | Some positions =>
          if Nat.ltb 0 (length positions) then mret positions
          else pause ;; retryGetPositions_loop retries delayMs k' (S attempt) positions
      | None => pause ;; retryGetPositions_loop retries delayMs k' (S attempt) lastResult
      end
  end.

Definition retryGetPositions (retries : nat) (delayMs : Z) : M (list PositionData) :=
  retryGetPositions_loop retries delayMs retries 0 [].

(** [getPoolDetails(poolAddress)]: the HTTP fetch and JSON decoding are one
    external call; a failure is alerted and gives [undefined]. *)
Definition getPoolDetails (addr : string) : M (option PoolDetails) :=
  catch
    (data ← ext CFetchPair (fun w n => w_fetchPair w n addr);
     let parts := split_on "-"%char (name data) in
     let assetASymbol := default "" (parts !! 0%nat) in
     let assetBSymbol := default "" (parts !! 1%nat) in
     if String.eqb assetASymbol "" || String.eqb assetBSymbol "" then
       throw (TError (String.append "Invalid pool name format: " (name data)))
     else
       mret (Some (mkPoolDetails (bin_step data) (mint_x data) (mint_y data)
                     assetASymbol assetBSymbol)))
    (fun error => sendAlert ERROR (AmError "In getPoolDetails" error) ;; mret None).

Definition verifyNativeTokenBalanceForFees : M unit :=
  nativeBalance ← getBalance None;
  c ← gets cfg;
  if qlt nativeBalance (cfg_minBalance c) then
    sendAlert WARNING (AmText "Low native token balance detected")
  else mret tt.

Definition getActiveBin (addr : string) : M BinLiquidity :=
  ext CGetActiveBin (fun w n => w_getActiveBin w n addr).

Definition swap (inputMint outputMint : string) (amount : Q) : M Q :=
  ext (CSwap inputMint outputMint amount)
    (fun w n => w_swap w n inputMint outputMint amount).

(** [rebalancePosition()].  Its [try]/[catch] only prints and rethrows,
    and [if (!activeBin)] cannot fire on a decoded record, so neither is
    written out. *)
Definition rebalancePosition : M unit :=
  pd ← poolDetails_get;
  balances ← getUsableBalances;
  let assetAAmount := bal balances (assetASymbol pd) in
  let assetBAmount := bal balances (assetBSymbol pd) in
  addr ← gets poolAddress;
  (if String.eqb addr "" then throw (TError "No working pool address found") else mret tt);;
  activeBin ← retry (getActiveBin addr) 5 5000;
  let currentPrice := pricePerToken activeBin in
  let totalValueInAssetB := (assetAAmount * currentPrice + assetBAmount)%Q in
  let targetValueInAssetB := (totalValueInAssetB / 2)%Q in
  let targetAssetABalance := (targetValueInAssetB / currentPrice)%Q in
  let targetAssetBBalance := targetValueInAssetB in
  (if qlt targetAssetABalance assetAAmount then
     let assetAToSwap := (assetAAmount - targetAssetABalance)%Q in
     outputAssetBAmount ← retry (swap (assetAMintAddress pd) (assetBMintAddress pd) assetAToSwap) 5 5000;
     emit (EvLog (LgSwapped assetAToSwap (assetASymbol pd) outputAssetBAmount (assetBSymbol pd)))
   else if qlt targetAssetBBalance assetBAmount then
     let assetBToSwap := (assetBAmount - targetAssetBBalance)%Q in
     outputAssetAAmount ← retry (swap (assetBMintAddress pd) (assetAMintAddress pd) assetBToSwap) 5 5000;
     emit (EvLog (LgSwapped assetBToSwap (assetBSymbol pd) outputAssetAAmount (assetASymbol pd)))
   else mret tt);;
  emit (EvLog (LgPrice currentPrice (assetASymbol pd) (assetBSymbol pd)));;
  newBalances ← getUsableBalances;
  emit (EvLog (LgBalances (bal newBalances (assetASymbol pd)) (bal newBalances (assetBSymbol pd))
                 TOTAL_BALANCE_PREFIX (assetASymbol pd) (assetBSymbol pd)));;
  sleep 5000.

(** The arithmetic and the two tests of [rebalancePosition] (the targets,
    [if (assetAAmount > targetAssetABalance) ... else if (assetBAmount >
    targetAssetBBalance) ...]) on doubles, as JavaScript evaluates them:
    which swap is submitted, and for how much. *)
Inductive SwapDecision :=
  | NoSwap
  | SwapAForB (assetAToSwap : spec_float)
  | SwapBForA (assetBToSwap : spec_float).

Definition rebalance_decision64 (assetAAmount currentPrice assetBAmount : spec_float)
    : SwapDecision :=
  let totalValueInAssetB := js_add (js_mul assetAAmount currentPrice) assetBAmount in
  let targetValueInAssetB := js_div totalValueInAssetB (js_of_Z 2) in
  let targetAssetABalance := js_div targetValueInAssetB currentPrice in
  let targetAssetBBalance := targetValueInAssetB in
  if js_lt targetAssetABalance assetAAmount then
    SwapAForB (js_sub assetAAmount targetAssetABalance)
  else if js_lt targetAssetBBalance assetBAmount then
    SwapBForA (js_sub assetBAmount targetAssetBBalance)
  else NoSwap.

Definition verifyNativeTokenBufferForPositions : M unit :=
  nativeBalance ← getBalance None;
  c ← gets cfg;
  if qlt nativeBalance (cfg_feeBuffer c) then
    sendAlert ERROR (AmInsufficientNative nativeBalance) ;;
    throw (TError "Insufficient native token balance for position creation fees")
  else mret tt.

(** [addLiquidity()], up to and including the log of the deposit. *)
Definition addLiquidity_deposit : M unit :=
  verifyNativeTokenBufferForPositions;;
  balances ← getUsableBalances;
  pd ← poolDetails_get;
  addr ← gets poolAddress;
  ri ← gets meteoraRangeInterval;
  let a := bal balances (assetASymbol pd) in
  let b := bal balances (assetBSymbol pd) in
  retry (ext (CAddLiquidity a b ri) (fun w n => w_addLiquidity w n addr a b ri)) 5 5000;;
  emit (EvLog (LgBalances a b "Liquidity added to pool" (assetASymbol pd) (assetBSymbol pd))).

(** [addLiquidity()], from [retryGetPositions(10, 10000)] on. *)
Definition addLiquidity_collect : M unit :=
  positions ← retryGetPositions 10 10000;
  match positions with
  | [] => mret tt
  | position :: _ => modify (set_bounds (lowerBinId position) (upperBinId position))
  end.

Definition addLiquidity : M unit := addLiquidity_deposit;; addLiquidity_collect.

Definition removeLiquidity : M unit :=
  addr ← gets poolAddress;
  r ← retry (ext CRemoveLiquidity (fun w n => w_removeLiquidity w n addr)) 5 5000;
  pd ← poolDetails_get;
  emit (EvLog (LgBalances (fst (liquidityRemoved r)) (snd (liquidityRemoved r))
                 "Liquidity removed from pool" (assetASymbol pd) (assetBSymbol pd)));;
  emit (EvLog (LgBalances (fst (feesClaimed r)) (snd (feesClaimed r))
                 "Rewards claimed" (assetASymbol pd) (assetBSymbol pd)));;
  sleep 5000;;
  newBalances ← getUsableBalances;
  emit (EvLog (LgWithdrew addr (bal newBalances (assetASymbol pd)) (assetASymbol pd)
                 (bal newBalances (assetBSymbol pd)) (assetBSymbol pd))).

(** [loadInitialState()], up to the position query: pool details, range
    width, initial balances. *)
Definition loadInitialState_setup : M unit :=
  addr ← gets poolAddress;
  pdo ← getPoolDetails addr;
  modify (set_poolDetails pdo);;
  (match pdo with
   | None => throw (TError (String.append "Failed to get pool details for pool: " addr))
   | Some _ => mret tt
   end);;
  pd ← poolDetails_get;
  c ← gets cfg;
  let rangeInterval :=
    Math_ceil (js_div (js_mul (cfg_rangeRel c) (js_of_Z 10000)) (js_of_Z (binStep pd))) in
  (if js_lt (js_of_Z METERORA_MAX_BINS_PER_SIDE) rangeInterval then
     sendAlert WARNING (AmRangeClip rangeInterval)
   else mret tt);;
  modify (set_rangeInterval
            (Some (Math_min rangeInterval (js_of_Z METERORA_MAX_BINS_PER_SIDE))));;
  _ ← getUsableBalances;
  mret tt.

(** [loadInitialState()], after the position query. *)
Definition loadInitialState_branch (positions : list PositionData) : M bool :=
  match positions with
  | [] =>
      verifyNativeTokenBalanceForFees;;
      rebalancePosition;;
      addLiquidity;;
      mret true
  | position :: _ =>
      modify (set_bounds (lowerBinId position) (upperBinId position));;
      mret false
  end.

Definition loadInitialState : M bool :=
  loadInitialState_setup;;
  positions ← retryGetPositions 3 5000;
  loadInitialState_branch positions.

(** The out-of-range branch of [rebalance()]: relocation. *)
Definition relocate : M unit :=
  removeLiquidity;;
  rebalancePosition;;
  verifyNativeTokenBufferForPositions;;
  addLiquidity.

(** The [try] block of [rebalance()]. *)
Definition rebalance_body : M bool :=
  addr ← gets poolAddress;
  (if String.eqb addr "" then throw (TError "No working pool address found") else mret tt);;
  activeBin ← retry (getActiveBin addr) 5 5000;
  lo ← gets currLowerBinId;
  hi ← gets currUpperBinId;
  if Z.ltb (binId activeBin) lo || Z.ltb hi (binId activeBin) then
    emit (EvLog (LgOutOfRange (binId activeBin) lo hi));;
    relocate;;
    mret true
  else mret false.

(** The [catch] block of [rebalance()]. *)
Definition rebalance_handler (error : Thrown) : M bool :=
  (if error_includes error "No positions found in this pool" then
     loadInitialState;; mret tt
   else mret tt);;
  sendAlert ERROR (AmError "In rebalanceMeteora" error);;
  mret false.

Definition rebalance : M bool := catch rebalance_body rebalance_handler.

(** ** Observations of the trace and of the controller state *)

Definition call_of (ev : Event) : option CallTag :=
  match ev with EvCall c _ => Some c | _ => None end.

Definition ok_call_of (ev : Event) : option CallTag :=
  match ev with EvCall c true => Some c | _ => None end.



Definition is_add (c : CallTag) : bool :=
  match c with CAddLiquidity _ _ _ => true | _ => false end.

(** All external calls, in order. *)
Definition calls (tr : list Event) : list CallTag := omap call_of tr.

(** The external calls that succeeded. *)
Definition ok_calls (tr : list Event) : list CallTag := omap ok_call_of tr.


(** Number of positions created: successful liquidity additions. *)
Definition positions_created (tr : list Event) : nat :=
  length (List.filter is_add (ok_calls tr)).

(** The controller's cached fields. *)
Definition ctl (s : St) : string * option PoolDetails * Z * Z * option spec_float :=
  (poolAddress s, _poolDetails s, currLowerBinId s, currUpperBinId s,
   meteoraRangeInterval s).

Definition bounds (s : St) : Z * Z := (currLowerBinId s, currUpperBinId s).

Definition transient {A} (r : Res A) : Prop :=
  match r with Exc e => isInsufficientFunds e = false | Ok _ => False end.


(** The events each operation can emit. *)
Definition fp_balances (ev : Event) : Prop :=
  match ev with EvCall (CGetBalance _) _ => True | _ => False end.

Definition fp_verify (ev : Event) : Prop :=
  match ev with EvCall (CGetBalance None) _ | EvAlert _ _ => True | _ => False end.

Definition fp_positions (ev : Event) : Prop :=
  match ev with EvCall CGetPositionsFromPool _ | EvSleep _ => True | _ => False end.

Definition fp_rebalancePosition (ev : Event) : Prop :=
  match ev with
  | EvCall (CGetBalance _) _ | EvCall CGetActiveBin _ | EvCall (CSwap _ _ _) _
  | EvSleep _ | EvLog _ => True
  | _ => False
  end.

Definition fp_deposit (ev : Event) : Prop :=
  match ev with
  | EvCall (CGetBalance _) _ | EvCall (CAddLiquidity _ _ _) _ | EvAlert _ _
  | EvSleep _ | EvLog _ => True
  | _ => False
  end.

Definition fp_removeLiquidity (ev : Event) : Prop :=
  match ev with
  | EvCall (CGetBalance _) _ | EvCall CRemoveLiquidity _ | EvSleep _ | EvLog _ => True
  | _ => False
  end.

(** The events that do not record a successful liquidity addition. *)
Definition no_add (ev : Event) : Prop :=
  match ev with EvCall c true => is_add c = false | _ => True end.

Definition alert_of (ev : Event) : option (AlertType * AlertMsg) :=
  match ev with EvAlert t m => Some (t, m) | _ => None end.

(** The alerts sent. *)
Definition alerts (tr : list Event) : list (AlertType * AlertMsg) := omap alert_of tr.

(** ** Example worlds, used to instantiate the theorems *)

(** A world whose answers do not depend on the clock: the token balances
    of mints ["mintA"] and ["mintB"], the native balance, and fixed
    answers of the pool. *)
Definition steady_world (balA balB native : Q) (ab : Res BinLiquidity)
    (positions : Res (list PositionData)) (removed : Res RemoveResult)
    (pair : Res PoolApi) : World :=
  mkWorld
    (fun _ m => match m with
                | None => Ok native
                | Some x => if String.eqb x "mintA" then Ok balA else Ok balB
                end)
    (fun _ _ => ab)
    (fun _ _ => positions)
    (fun _ _ _ amount => Ok amount)
    (fun _ _ _ _ _ => Ok tt)
    (fun _ _ => removed)
    (fun _ _ => pair).

Definition ex_pair : PoolApi := mkPoolApi 25 "mintA" "mintB" "SOL-USDC".
Definition ex_pool : PoolDetails := mkPoolDetails 25 "mintA" "mintB" "SOL" "USDC".
Definition ex_removed : RemoveResult := mkRemove (1, 1)%Q (0, 0)%Q.

(** A rebalancer at clock 0 with an empty trace. *)
Definition ex_state (pd : option PoolDetails) (lo hi : Z) (c : Config) (w : World) : St :=
  mkSt "pool" pd lo hi (Some (js_of_Z 20)) c w 0 [].


(** A rebalancer before [loadInitialState()], with range fraction [r],
    on a pool answering [pair]. *)
Definition ex_startup (r : spec_float) (pair : PoolApi) : St :=
  ex_state None 0 0 (defaultConfig r)
    (steady_world 1 1 1 (Ok (mkBin 0 1)) (Ok []) (Ok ex_removed) (Ok pair)).

Definition ex_pair1 : PoolApi := mkPoolApi 1 "mintA" "mintB" "SOL-USDC".

(** A running rebalancer on the SOL-USDC pool with bounds [100, 120]. *)
Definition ex_running (ab : Res BinLiquidity) (positions : Res (list PositionData))
    (removed : Res RemoveResult) (pair : Res PoolApi) : St :=
  ex_state (Some ex_pool) 100 120 (defaultConfig (js_decimal 5 2))
    (steady_world 1 1 1 ab positions removed pair).

Definition ex_in_range : St :=
  ex_running (Ok (mkBin 110 1)) (Ok [mkPosition 100 120]) (Ok ex_removed) (Ok ex_pair).

Definition ex_relocating : St :=
  ex_running (Ok (mkBin 130 1)) (Ok [mkPosition 125 135]) (Ok ex_removed) (Ok ex_pair).

Definition ex_remove_fails : St :=
  ex_running (Ok (mkBin 130 1)) (Ok [mkPosition 125 135])
    (Exc (TError "Transaction simulation failed")) (Ok ex_pair).

Definition ex_no_readback : St :=
  ex_running (Ok (mkBin 130 1)) (Ok []) (Ok ex_removed) (Ok ex_pair).

Definition ex_bin_timeout : St :=
  ex_running (Exc (TError "timeout")) (Ok [mkPosition 100 120]) (Ok ex_removed) (Ok ex_pair).

Definition ex_stale : St :=
  ex_running (Exc (TError "No positions found in this pool")) (Ok []) (Ok ex_removed)
    (Exc (TError "HTTP 503")).

Definition ex_no_funds : St :=
  ex_running (Exc (TError "Transfer: insufficient funds for rent")) (Ok []) (Ok ex_removed)
    (Ok ex_pair).

(** The pauses taken, by their delay. *)
Definition sleep_of (ev : Event) : option Z :=
  match ev with EvSleep ms => Some ms | _ => None end.

Definition sleeps (tr : list Event) : list Z := omap sleep_of tr.

(** A position query that does not end [retryGetPositions]: no position,
    or a failure other than insufficient funds. *)
Definition empty_or_transient (r : Res (list PositionData)) : Prop :=
  match r with Ok l => l = [] | Exc e => isInsufficientFunds e = false end.

(** ** [BalanceLogger] and its storage backends

    These work on the text of the log.  [Number]-to-string conversion
    ([${balance}] in the templates) is not modelled: the rendered text of
    a balance is taken as given. *)

Definition newline : string := String "010"%char EmptyString.

(** The line [logBalances] writes, before its final ["\n"]; [timestamp]
    is [new Date().toISOString()]. *)
Definition logBalances_line (timestamp prefix assetASymbol assetABalance
    assetBSymbol assetBBalance : string) : string :=
  "[" +:+ timestamp +:+ "] " +:+ prefix +:+ "  -  " +:+ assetASymbol +:+ ": "
    +:+ assetABalance +:+ ", " +:+ assetBSymbol +:+ ": " +:+ assetBBalance.

(** [logEntry] of [logBalances]. *)
Definition logBalances_entry (timestamp prefix assetASymbol assetABalance
    assetBSymbol assetBBalance : string) : string :=
  logBalances_line timestamp prefix assetASymbol assetABalance assetBSymbol assetBBalance
    +:+ newline.

(** Every character of [s] satisfies [p]. *)
Fixpoint all_chars (p : ascii -> bool) (s : string) : bool :=
  match s with
  | EmptyString => true
  | String c s' => p c && all_chars p s'
  end.

(** [\w]: [[A-Za-z0-9_]]. *)
Definition is_word (c : ascii) : bool :=
  let n := nat_of_ascii c in
  (Nat.leb 48 n && Nat.leb n 57) || (Nat.leb 65 n && Nat.leb n 90)
  || (Nat.leb 97 n && Nat.leb n 122) || Nat.eqb n 95.

(** [\d]. *)
Definition is_digit (c : ascii) : bool :=
  let n := nat_of_ascii c in Nat.leb 48 n && Nat.leb n 57.

(** [[\d.]]. *)
Definition is_num_char (c : ascii) : bool := is_digit c || Ascii.eqb c ".".

(** The longest prefix of [s] whose characters satisfy [p], and the rest. *)
Fixpoint span (p : ascii -> bool) (s : string) : string * string :=
  match s with
  | EmptyString => (EmptyString, EmptyString)
  | String c s' =>
      if p c then let (a, b) := span p s' in (String c a, b)
      else (EmptyString, s)
  end.

(** The literal [lit] at the start of [s]: what follows it. *)
Fixpoint strip (lit s : string) : option string :=
  match lit with
  | EmptyString => Some s
  | String c lit' =>
      match s with
      | String c' s' => if Ascii.eqb c c' then strip lit' s' else None
      | EmptyString => None
      end
  end.

(** [/(\w+): ([\d.]+), (\w+): ([\d.]+)/] tried at the start of [s].  A
    greedy group followed by a literal can only be backtracked to a
    shorter run when that run is followed by the literal, which a shorter
    run of [\w] (or [[\d.]]) never is; so each group is the longest run,
    and the last one, followed by nothing, too. *)
Definition balance_match_at (s : string) : option (string * string * string * string) :=
  let (g1, r1) := span is_word s in
  if String.eqb g1 "" then None else
  match strip ": " r1 with
  | None => None
  | Some r2 =>
      let (g2, r3) := span is_num_char r2 in
      if String.eqb g2 "" then None else
      match strip ", " r3 with
      | None => None
      | Some r4 =>
          let (g3, r5) := span is_word r4 in
          if String.eqb g3 "" then None else
          match strip ": " r5 with
          | None => None
          | Some r6 =>
              let (g4, _) := span is_num_char r6 in
              if String.eqb g4 "" then None else Some (g1, g2, g3, g4)
          end
      end
  end.

(** [logMessage.match(...)]: the match at the leftmost start where there
    is one; its groups 1 to 4. *)
Fixpoint balance_match (s : string) : option (string * string * string * string) :=
  match balance_match_at s with
  | Some m => Some m
  | None => match s with EmptyString => None | String _ s' => balance_match s' end
  end.

(** The value of a string of decimal digits. *)
Fixpoint digits_value (acc : Z) (s : string) : Z :=
  match s with
  | EmptyString => acc
  | String c s' => digits_value (10 * acc + (Z.of_nat (nat_of_ascii c) - 48)) s'
  end.

(** [parseFloat(s)] on a string of digits and dots (the groups of the
    pattern are such strings): the longest prefix [digits] or
    [digits.digits], where either run of digits may be empty but not
    both; [None] is [NaN]. *)
Definition parseFloat_num (s : string) : option Q :=
  let (ip, rest) := span is_digit s in
  let fp := match rest with
            | String c r => if Ascii.eqb c "." then fst (span is_digit r) else EmptyString
            | EmptyString => EmptyString
            end in
  if String.eqb ip "" && String.eqb fp "" then None
  else Some (inject_Z (digits_value 0 ip)
             + inject_Z (digits_value 0 fp) / inject_Z (10 ^ Z.of_nat (String.length fp)))%Q.

(** [extractBalanceFromLog(logMessage)]. *)
Definition extractBalanceFromLog (logMessage : string) : option (option Q * option Q) :=
  match balance_match logMessage with
  | Some (_, a, _, b) => Some (parseFloat_num a, parseFloat_num b)
  | None => None
  end.

(** The characters [.] does not match. *)
Definition is_line_terminator (c : ascii) : bool :=
  Ascii.eqb c "010"%char || Ascii.eqb c "013"%char.

(** [(.*?)\]] from the start of [s]: the text up to the first [']'], if
    no line terminator comes before it. *)
Fixpoint lazy_to_bracket (s : string) : option string :=
  match s with
  | EmptyString => None
  | String c s' =>
      if Ascii.eqb c "]" then Some EmptyString
      else if is_line_terminator c then None
      else option_map (String c) (lazy_to_bracket s')
  end.

(** [line.match(/\[(.*?)\]/)?.[1]]. *)
Fixpoint bracket_timestamp (line : string) : option string :=
  match line with
  | EmptyString => None
  | String c s' =>
      match (if Ascii.eqb c "[" then lazy_to_bracket s' else None) with
      | Some g => Some g
      | None => bracket_timestamp s'
      end
  end.

Section LocalFileStorage.
(** The time value of [new Date(s)]; [None] for an invalid date, which
    compares false with every date. *)
Variable Date_parse : string -> option Z.

(** The second filter of [getLastLogByPrefix]:
    [logTimestamp && new Date(logTimestamp) <= timestamp]. *)
Definition lf_line_ok (timestamp : Z) (line : string) : bool :=
  match bracket_timestamp line with
  | Some logTimestamp =>
      negb (String.eqb logTimestamp "") &&
      match Date_parse logTimestamp with Some t => Z.leb t timestamp | None => false end
  | None => false
  end.

(** [LocalFileStorage.getLastLogByPrefix(prefix, timestamp)]; [file] is
    the content of [logs/balances.log], [None] when it does not exist. *)
Definition lf_getLastLogByPrefix (file : option string) (prefix : string) (timestamp : Z)
    : option string :=
  match file with
  | None => None
  | Some content =>
      let lastLogLine :=
        last (List.filter (lf_line_ok timestamp)
                (List.filter (fun line => includes line prefix) (split_on "010"%char content))) in
      match lastLogLine with
      | Some l => if String.eqb l "" then None else Some l
      | None => None
      end
  end.

(** [getLastBalance(timestamp)] on the local file. *)
Definition lf_getLastBalance (file : option string) (timestamp : Z)
    : option (option Q * option Q) :=
  match lf_getLastLogByPrefix file TOTAL_BALANCE_PREFIX timestamp with
  | Some msg => if String.eqb msg "" then None else extractBalanceFromLog msg
  | None => None
  end.
End LocalFileStorage.

(** [LocalFileStorage.append(content)]: [fs.appendFileSync] creates a
    missing file. *)
Definition lf_append (file : option string) (content : string) : option string :=
  Some (default "" file +:+ content).

(** A [new Date(s)] for the examples: two ISO dates, every other string
    invalid. *)
Definition ex_date_parse (s : string) : option Z :=
  if String.eqb s "2024-05-01T12:00:00.000Z" then Some 100%Z
  else if String.eqb s "2024-05-02T12:00:00.000Z" then Some 200%Z else None.

Definition ex_line1 : string := "[2024-05-01T12:00:00.000Z] Total 1".
Definition ex_line2 : string := "[2024-05-02T12:00:00.000Z] Total 2".
Definition ex_line3 : string := "[2024-05-01T12:00:00.000Z] Total 3".

(** A log file of three lines, the last one dated after [150]. *)
Definition ex_log_body : string :=
  "x" +:+ newline +:+ ex_line1 +:+ newline +:+ ex_line2.
Definition ex_log : string := ex_log_body +:+ newline.

(** An event of [GetLogEvents]: [timestamp] and [message], both optional. *)
Record OutputLogEvent := mkLogEvent {
  ev_timestamp : option Z;
  ev_message : option string;
}.

(** [event.timestamp || 0]. *)
Definition ev_key (e : OutputLogEvent) : Z := default 0%Z (ev_timestamp e).

(** The filter of [CloudWatchStorage.getLastLogByPrefix]. *)
Definition cw_matches (prefix : string) (timestamp : Z) (e : OutputLogEvent) : bool :=
  includes (default "" (ev_message e)) prefix && Z.leb (ev_key e) timestamp.

(** [sort((a, b) => (b.timestamp || 0) - (a.timestamp || 0))]: the array
    sort is stable, so its result is the one of this insertion sort by
    descending key, an element going before the elements of equal key
    that followed it. *)
Fixpoint insert_desc (x : OutputLogEvent) (l : list OutputLogEvent) : list OutputLogEvent :=
  match l with
  | [] => [x]
  | y :: l' => if Z.leb (ev_key y) (ev_key x) then x :: l else y :: insert_desc x l'
  end.

Fixpoint sort_desc (l : list OutputLogEvent) : list OutputLogEvent :=
  match l with
  | [] => []
  | x :: l' => insert_desc x (sort_desc l')
  end.

(** [CloudWatchStorage.getLastLogByPrefix(prefix, timestamp)]; [events]
    is [response.events] of the [GetLogEvents] call. *)
Definition cw_getLastLogByPrefix (events : option (list OutputLogEvent)) (prefix : string)
    (timestamp : Z) : option string :=
  let matchingLogs := sort_desc (List.filter (cw_matches prefix timestamp) (default [] events)) in
  match matchingLogs with
  | e :: _ =>
      match ev_message e with
      | Some m => if String.eqb m "" then None else Some m
      | None => None
      end
  | [] => None
  end.

(** [getLastBalance(timestamp)] on CloudWatch. *)
Definition cw_getLastBalance (events : option (list OutputLogEvent)) (timestamp : Z)
    : option (option Q * option Q) :=
  match cw_getLastLogByPrefix events TOTAL_BALANCE_PREFIX timestamp with
  | Some msg => if String.eqb msg "" then None else extractBalanceFromLog msg
  | None => None
  end.

(** A [GetLogEvents] response: two balance events of the same time, an
    older one, a later one and one from another prefix without time. *)
Definition ex_entry : string :=
  logBalances_entry "2024-05-01T12:00:00.000Z" TOTAL_BALANCE_PREFIX "SOL" "1.25" "USDC" "180".
Definition ex_ev_old : OutputLogEvent := mkLogEvent (Some 50%Z) (Some (TOTAL_BALANCE_PREFIX +:+ " old")).
Definition ex_ev_a : OutputLogEvent := mkLogEvent (Some 120%Z) (Some ex_entry).
Definition ex_ev_b : OutputLogEvent := mkLogEvent (Some 120%Z) (Some (TOTAL_BALANCE_PREFIX +:+ " b")).
Definition ex_ev_late : OutputLogEvent := mkLogEvent (Some 200%Z) (Some (TOTAL_BALANCE_PREFIX +:+ " late")).
Definition ex_ev_other : OutputLogEvent := mkLogEvent None (Some "Current price: 180").
Definition ex_events : list OutputLogEvent :=
  [ex_ev_old; ex_ev_a; ex_ev_late; ex_ev_other; ex_ev_b].

(** A world whose pool fails with ['timeout'] (the position query
    alternately answers no position and fails) until clock [n], and then
    answers as the SOL-USDC pool with one position. *)
Definition flaky_world (n : nat) : World :=
  mkWorld
    (fun _ _ => Ok 1%Q)
    (fun t _ => if Nat.ltb t n then Exc (TError "timeout") else Ok (mkBin 110 1%Q))
    (fun t _ => if Nat.ltb t n then (if Nat.even t then Ok [] else Exc (TError "timeout"))
                else Ok [mkPosition 100 120])
    (fun _ _ _ amount => Ok amount)
    (fun _ _ _ _ _ => Ok tt)
    (fun _ _ => Ok ex_removed)
    (fun t _ => if Nat.ltb t n then Exc (TError "HTTP 503") else Ok ex_pair).

Definition ex_flaky (pd : option PoolDetails) (n : nat) : St :=
  ex_state pd 100 120 (defaultConfig (js_decimal 5 2)) (flaky_world n).

(** A rebalancer with no pool address. *)
Definition ex_no_address : St :=
  mkSt "" (Some ex_pool) 100 120 (Some (js_of_Z 20)) (defaultConfig (js_decimal 5 2)) (flaky_world 0) 0 [].

(** [m] leaves the projection [f] of the state unchanged. *)
Definition Keeps {T A} (f : St -> T) (m : M A) : Prop := forall s, f (snd (m s)) = f s.

(** ** Running the monad *)

Lemma bind_run {A B} (m : M A) (k : A -> M B) s :
  (m ≫= k) s = match m s with (Ok a, s') => k a s' | (Exc e, s') => (Exc e, s') end.
Proof. reflexivity. Qed.

Lemma bind_ok {A B} (m : M A) (k : A -> M B) s a s1 :
  m s = (Ok a, s1) -> (m ≫= k) s = k a s1.
Proof. intros H. rewrite bind_run, H. reflexivity. Qed.

Lemma bind_exc {A B} (m : M A) (k : A -> M B) s e s1 :
  m s = (Exc e, s1) -> (m ≫= k) s = (Exc e, s1).
Proof. intros H. rewrite bind_run, H. reflexivity. Qed.

Lemma bind_ok_inv {A B} (m : M A) (k : A -> M B) s b s2 :
  (m ≫= k) s = (Ok b, s2) -> exists a s1, m s = (Ok a, s1) /\ k a s1 = (Ok b, s2).
Proof.
  rewrite bind_run. destruct (m s) as [[a|e] s1]; intros H.
  - eauto.
  - discriminate.
Qed.

Lemma catch_ok {A} (m : M A) h s a s1 :
  m s = (Ok a, s1) -> catch m h s = (Ok a, s1).
Proof. intros H. unfold catch. rewrite H. reflexivity. Qed.

Lemma catch_exc {A} (m : M A) h s e s1 :
  m s = (Exc e, s1) -> catch m h s = h e s1.
Proof. intros H. unfold catch. rewrite H. reflexivity. Qed.

Lemma omap_snoc {X Y} (g : X -> option Y) (l : list X) x :
  omap g (l ++ [x]) = omap g l ++ match g x with Some y => [y] | None => [] end.
Proof. rewrite omap_app. simpl. destruct (g x); reflexivity. Qed.

(** ** Projections an action leaves unchanged *)

Section Keeps.
Context {T : Type} (f : St -> T) (P : Event -> Prop).
Hypothesis f_tick : forall s, f (tick s) = f s.
Hypothesis f_rec : forall ev s, P ev -> f (record_event ev s) = f s.

Lemma keeps_ret {A} (a : A) : Keeps f (mret a).
Proof. intros s. reflexivity. Qed.

Lemma keeps_throw {A} e : Keeps f (@throw A e).
Proof. intros s. reflexivity. Qed.

Lemma keeps_gets {A} (g : St -> A) : Keeps f (gets g).
Proof. intros s. reflexivity. Qed.

Lemma keeps_bind {A B} (m : M A) (k : A -> M B) :
  Keeps f m -> (forall a, Keeps f (k a)) -> Keeps f (m ≫= k).
Proof.
  intros Hm Hk s. specialize (Hm s). rewrite bind_run.
  destruct (m s) as [[a|e] s1]; simpl in *; [rewrite Hk|]; exact Hm.
Qed.

Lemma keeps_catch {A} (m : M A) h :
  Keeps f m -> (forall e, Keeps f (h e)) -> Keeps f (catch m h).
Proof.
  intros Hm Hh s. specialize (Hm s). unfold catch.
  destruct (m s) as [[a|e] s1]; simpl in *; [|rewrite Hh]; exact Hm.
Qed.

Lemma keeps_ext {A} c (sel : World -> nat -> Res A) :
  (forall ok, P (EvCall c ok)) -> Keeps f (ext c sel).
Proof. intros Hc s. simpl. rewrite f_rec by apply Hc. apply f_tick. Qed.

Lemma keeps_emit ev : P ev -> Keeps f (emit ev).
Proof. intros Hev s. simpl. apply f_rec, Hev. Qed.

Lemma keeps_poolDetails_get : Keeps f poolDetails_get.
Proof. intros s. unfold poolDetails_get. destruct (_poolDetails s); reflexivity. Qed.

Lemma keeps_retry_loop {A} (fn : M A) retries delayMs :
  Keeps f fn -> (forall ms, P (EvSleep ms)) ->
  forall k attempt last, Keeps f (retry_loop fn retries delayMs k attempt last).
Proof.
  intros Hfn Hsl k. induction k as [|k IH]; intros attempt last; simpl.
  - apply keeps_throw.
  - apply keeps_catch; [exact Hfn|]. intros e.
    destruct (isInsufficientFunds e); [apply keeps_throw|].
    apply keeps_bind; [|intros; apply IH].
    destruct (Nat.ltb attempt (retries - 1)); [apply keeps_emit, Hsl|apply keeps_ret].
Qed.

Ltac keeps_tac HP :=
  unfold getUsableBalances, getBalance, getActiveBin, swap, getPositionsFromPool,
    sleep, sendAlert, retry in *;
  repeat match goal with
  | |- Keeps _ (mbind _ _) => apply keeps_bind; [|intros ?]
  | |- Keeps _ (catch _ _) => apply keeps_catch; [|intros ?]
  | |- Keeps _ (mret _) => apply keeps_ret
  | |- Keeps _ (throw _) => apply keeps_throw
  | |- Keeps _ (gets _) => apply keeps_gets
  | |- Keeps _ poolDetails_get => apply keeps_poolDetails_get
  | |- Keeps _ (ext _ _) => apply keeps_ext; intros ?; apply HP; exact I
  | |- Keeps _ (emit _) => apply keeps_emit; apply HP; exact I
  | |- Keeps _ (retry_loop _ _ _ _ _ _) =>
      apply keeps_retry_loop; [|intros ?; apply HP; exact I]
  | |- Keeps _ (if ?b then _ else _) => destruct b
  | |- Keeps _ (match ?x with _ => _ end) => destruct x
  | |- Keeps _ (let _ := _ in _) => cbv zeta
  end.

Lemma keeps_getUsableBalances :
  (forall ev, fp_balances ev -> P ev) -> Keeps f getUsableBalances.
Proof. intros HP. keeps_tac HP. Qed.

Lemma keeps_verifyNativeTokenBalanceForFees :
  (forall ev, fp_verify ev -> P ev) -> Keeps f verifyNativeTokenBalanceForFees.
Proof. intros HP. unfold verifyNativeTokenBalanceForFees. keeps_tac HP. Qed.

Lemma keeps_verifyNativeTokenBufferForPositions :
  (forall ev, fp_verify ev -> P ev) -> Keeps f verifyNativeTokenBufferForPositions.
Proof. intros HP. unfold verifyNativeTokenBufferForPositions. keeps_tac HP. Qed.

Lemma keeps_rebalancePosition :
  (forall ev, fp_rebalancePosition ev -> P ev) -> Keeps f rebalancePosition.
Proof. intros HP. unfold rebalancePosition. keeps_tac HP. Qed.

Lemma keeps_addLiquidity_deposit :
  (forall ev, fp_deposit ev -> P ev) -> Keeps f addLiquidity_deposit.
Proof.
  intros HP. unfold addLiquidity_deposit, verifyNativeTokenBufferForPositions.
  keeps_tac HP.
Qed.

Lemma keeps_removeLiquidity :
  (forall ev, fp_removeLiquidity ev -> P ev) -> Keeps f removeLiquidity.
Proof. intros HP. unfold removeLiquidity. keeps_tac HP. Qed.

Lemma keeps_retryGetPositions_loop retries delayMs :
  (forall ev, fp_positions ev -> P ev) ->
  forall k attempt last, Keeps f (retryGetPositions_loop retries delayMs k attempt last).
Proof.
  intros HP k. induction k as [|k IH]; intros attempt last; simpl.
  - apply keeps_ret.
  - keeps_tac HP; apply IH.
Qed.
End Keeps.

(** Traces only grow, and these projections ignore the clock and the
    trace. *)
Lemma ctl_tick s : ctl (tick s) = ctl s.
Proof. reflexivity. Qed.
Lemma ctl_rec ev s : ctl (record_event ev s) = ctl s.
Proof. reflexivity. Qed.
Lemma bounds_tick s : bounds (tick s) = bounds s.
Proof. reflexivity. Qed.
Lemma bounds_rec ev s : bounds (record_event ev s) = bounds s.
Proof. reflexivity. Qed.

(** ** [retry] on an external call *)

Section RetryExt.
Context {A : Type} (c : CallTag) (sel : World -> nat -> Res A)
        (retries : nat) (delayMs : Z).

(** One step of the loop after a non-fatal failure: the optional pause. *)
Lemma pause_run (b : bool) (s : St) :
  exists s', (if b then sleep delayMs else mret tt) s = (Ok tt, s') /\
    clock s' = clock s /\ world s' = world s /\
    calls (trace s') = calls (trace s) /\ ok_calls (trace s') = ok_calls (trace s).
Proof.
  destruct b; eexists; split; [reflexivity| |reflexivity|]; simpl; auto.
  unfold calls, ok_calls. rewrite !omap_snoc. simpl. rewrite !app_nil_r. auto.
Qed.

(** Every run makes between one and [k] calls, all of them [c]; at most
    the last one succeeds, and it does exactly when the loop returns. *)
Lemma retry_loop_ext_calls :
  forall k attempt last s, (1 <= k)%nat ->
  let r := retry_loop (ext c sel) retries delayMs k attempt last s in
  exists j, (1 <= j <= k)%nat /\
    clock (snd r) = (clock s + j)%nat /\
    world (snd r) = world s /\
    calls (trace (snd r)) = calls (trace s) ++ repeat c j /\
    ok_calls (trace (snd r)) = ok_calls (trace s) ++ (if is_ok (fst r) then [c] else []).
Proof.
  intros k. induction k as [|k IH]; intros attempt last s Hk; [lia|].
  cbn zeta. simpl retry_loop. unfold catch, ext at 1. cbv zeta.
  destruct (sel (world s) (clock s)) as [a|e] eqn:E; simpl; rewrite ?E; simpl.
  - exists 1%nat. unfold calls, ok_calls. rewrite !omap_snoc.
    simpl. repeat split; lia || reflexivity.
  - destruct (isInsufficientFunds e).
    + exists 1%nat. simpl. unfold calls, ok_calls. rewrite !omap_snoc.
      simpl. rewrite app_nil_r. repeat split; lia || reflexivity.
    + set (s1 := record_event (EvCall c false) (tick s)).
      destruct (pause_run (Nat.ltb attempt (retries - 1)) s1)
        as (s2 & Hp & Hc & Hw & Hcl & Hok).
      rewrite bind_run, Hp.
      assert (Hs2 : clock s2 = S (clock s) /\ world s2 = world s /\
                    calls (trace s2) = calls (trace s) ++ [c] /\
                    ok_calls (trace s2) = ok_calls (trace s)).
      { rewrite Hc, Hw, Hcl, Hok. subst s1. simpl. unfold calls, ok_calls.
        rewrite !omap_snoc. simpl. rewrite app_nil_r. auto. }
      destruct Hs2 as (Hc2 & Hw2 & Hcl2 & Hok2).
      destruct k as [|k].
      * exists 1%nat. simpl. rewrite Hc2, Hw2, Hcl2, Hok2, app_nil_r.
        repeat split; lia || reflexivity.
      * destruct (IH (S attempt) e s2 ltac:(lia)) as (j & Hj & Hcj & Hwj & Hclj & Hokj).
        exists (S j). repeat split; try lia.
        -- rewrite Hwj. exact Hw2.
        -- rewrite Hclj, Hcl2, <- app_assoc. reflexivity.
        -- rewrite Hokj, Hok2. reflexivity.
Qed.

(** A non-fatal failure at the current clock: pause, then the next
    iteration, one tick later. *)
Lemma retry_loop_step_transient k attempt last s e :
  sel (world s) (clock s) = Exc e -> isInsufficientFunds e = false ->
  exists s2,
    retry_loop (ext c sel) retries delayMs (S k) attempt last s
      = retry_loop (ext c sel) retries delayMs k (S attempt) e s2 /\
    clock s2 = S (clock s) /\ world s2 = world s /\ ctl s2 = ctl s /\
    calls (trace s2) = calls (trace s) ++ [c].
Proof.
  intros E Hf. simpl retry_loop. unfold catch, ext at 1. cbv zeta.
  rewrite E. simpl. rewrite Hf.
  destruct (Nat.ltb attempt (retries - 1)); simpl; eexists; (split; [reflexivity|]);
    simpl; unfold calls; rewrite ?omap_snoc; simpl; rewrite ?app_nil_r;
    repeat split; reflexivity.
Qed.

(** Only non-fatal failures: exactly [k] calls, and the last failure is
    thrown ([lastError] when there was no call at all). *)
Lemma retry_loop_transient :
  forall k attempt last s elast,
  (forall i, (i < k)%nat -> transient (sel (world s) (clock s + i))) ->
  (k = 0%nat -> elast = last) ->
  ((1 <= k)%nat -> sel (world s) (clock s + (k - 1)) = Exc elast) ->
  let r := retry_loop (ext c sel) retries delayMs k attempt last s in
  fst r = Exc elast /\ clock (snd r) = (clock s + k)%nat /\
  calls (trace (snd r)) = calls (trace s) ++ repeat c k.
Proof.
  intros k. induction k as [|k IH]; intros attempt last s elast Htr H0 H1.
  - simpl. rewrite H0 by reflexivity. rewrite Nat.add_0_r, app_nil_r. auto.
  - pose proof (Htr 0%nat ltac:(lia)) as Ht. rewrite Nat.add_0_r in Ht.
    destruct (sel (world s) (clock s)) as [a|e] eqn:E; [contradiction|].
    destruct (retry_loop_step_transient k attempt last s e E Ht)
      as (s2 & Heq & Hc & Hw & _ & Hcl).
    cbn zeta. rewrite Heq.
    destruct (IH (S attempt) e s2 elast) as (Hr & Hc' & Hcl').
    + intros i Hi. rewrite Hw, Hc. replace (S (clock s) + i)%nat with (clock s + S i)%nat by lia.
      apply Htr. lia.
    + intros ->. rewrite Nat.add_0_r, E in H1. specialize (H1 ltac:(lia)). congruence.
    + intros Hk. rewrite Hw, Hc. replace (S (clock s) + (k - 1))%nat with (clock s + (S k - 1))%nat by lia.
      apply H1. lia.
    + split; [exact Hr|]. split.
      * rewrite Hc', Hc. lia.
      * rewrite Hcl', Hcl, <- app_assoc. reflexivity.
Qed.

(** The first fatal failure ([insufficient funds]) ends the loop at once
    with [Error('Insufficient funds')]. *)
Lemma retry_loop_fatal :
  forall j k attempt last s e, (j < k)%nat ->
  (forall i, (i < j)%nat -> transient (sel (world s) (clock s + i))) ->
  sel (world s) (clock s + j) = Exc e -> isInsufficientFunds e = true ->
  let r := retry_loop (ext c sel) retries delayMs k attempt last s in
  fst r = Exc (TError "Insufficient funds") /\ clock (snd r) = (clock s + S j)%nat /\
  calls (trace (snd r)) = calls (trace s) ++ repeat c (S j).
Proof.
  intros j. induction j as [|j IH]; intros k attempt last s e Hj Htr He Hf;
    (destruct k as [|k]; [lia|]).
  - rewrite Nat.add_0_r in He. cbn zeta. simpl retry_loop. unfold catch, ext.
    cbv zeta. rewrite He. simpl. rewrite Hf. simpl. unfold calls. rewrite omap_snoc.
    simpl. split; [reflexivity|split; [lia|reflexivity]].
  - pose proof (Htr 0%nat ltac:(lia)) as Ht. rewrite Nat.add_0_r in Ht.
    destruct (sel (world s) (clock s)) as [a|e0] eqn:E; [contradiction|].
    destruct (retry_loop_step_transient k attempt last s e0 E Ht)
      as (s2 & Heq & Hc & Hw & _ & Hcl).
    cbn zeta. rewrite Heq.
    destruct (IH k (S attempt) e0 s2 e) as (Hr & Hc' & Hcl'); [lia| | |exact Hf|].
    + intros i Hi. rewrite Hw, Hc. replace (S (clock s) + i)%nat with (clock s + S i)%nat by lia.
      apply Htr. lia.
    + rewrite Hw, Hc. replace (S (clock s) + j)%nat with (clock s + S j)%nat by lia. exact He.
    + split; [exact Hr|]. split.
      * rewrite Hc', Hc. lia.
      * rewrite Hcl', Hcl, <- app_assoc. reflexivity.
Qed.
End RetryExt.

(** ** Running the operations on known answers *)

Lemma qlt_spec x y : qlt x y = true <-> (x < y)%Q.
Proof.
  unfold qlt. rewrite negb_true_iff. split.
  - intros H. apply Qnot_le_lt. intros Hle. apply Qle_bool_iff in Hle. congruence.
  - intros H. destruct (Qle_bool y x) eqn:E; [|reflexivity].
    apply Qle_bool_iff in E. exfalso. apply (Qlt_not_le x y H E).
Qed.

Lemma gets_bind {A B} (f : St -> A) (k : A -> M B) s : (gets f ≫= k) s = k (f s) s.
Proof. reflexivity. Qed.

Lemma ext_bind {A B} c (sel : World -> nat -> Res A) (k : A -> M B) s :
  (ext c sel ≫= k) s =
    match sel (world s) (clock s) with
    | Ok a => k a (record_event (EvCall c true) (tick s))
    | Exc e => (Exc e, record_event (EvCall c false) (tick s))
    end.
Proof. unfold ext. cbv zeta. rewrite bind_run. destruct (sel (world s) (clock s)); reflexivity. Qed.

Lemma cfg_rec_tick ev s : cfg (record_event ev (tick s)) = cfg s.
Proof. reflexivity. Qed.

Lemma getUsableBalances_run st pd ra rb :
  _poolDetails st = Some pd ->
  w_getBalance (world st) (clock st) (Some (assetAMintAddress pd)) = Ok ra ->
  w_getBalance (world st) (S (clock st)) (Some (assetBMintAddress pd)) = Ok rb ->
  getUsableBalances st =
    (Ok (<[assetBSymbol pd := usable (cfg_feeBuffer (cfg st)) (assetBSymbol pd) rb]>
          (<[assetASymbol pd := usable (cfg_feeBuffer (cfg st)) (assetASymbol pd) ra]>
            (∅ : gmap string Q))),
     record_event (EvCall (CGetBalance (Some (assetBMintAddress pd))) true)
       (tick (record_event (EvCall (CGetBalance (Some (assetAMintAddress pd))) true) (tick st)))).
Proof.
  intros Hpd Ha Hb. unfold getUsableBalances, getBalance.
  rewrite (bind_ok _ _ st pd st) by (unfold poolDetails_get; rewrite Hpd; reflexivity).
  rewrite bind_run. unfold ext at 1. cbv beta zeta. rewrite Ha.
  rewrite bind_run. unfold ext at 1. cbv beta zeta. cbn [world clock tick record_event].
  rewrite Hb. reflexivity.
Qed.

Lemma bal_usable_A pd buf ra rb :
  assetASymbol pd <> assetBSymbol pd ->
  (<[assetBSymbol pd := usable buf (assetBSymbol pd) rb]>
     (<[assetASymbol pd := usable buf (assetASymbol pd) ra]> (∅ : gmap string Q)))
    !! assetASymbol pd = Some (usable buf (assetASymbol pd) ra).
Proof. intros Hne. rewrite lookup_insert_ne by auto. apply lookup_insert_eq. Qed.

Lemma bal_usable_B pd buf ra rb :
  (<[assetBSymbol pd := usable buf (assetBSymbol pd) rb]>
     (<[assetASymbol pd := usable buf (assetASymbol pd) ra]> (∅ : gmap string Q)))
    !! assetBSymbol pd = Some (usable buf (assetBSymbol pd) rb).
Proof. apply lookup_insert_eq. Qed.

Lemma usable_nonneg buf sym raw : (0 <= raw)%Q -> (0 <= usable buf sym raw)%Q.
Proof.
  intros H. unfold usable. destruct (isNative sym); [|exact H].
  apply Q.max_le_iff. left. apply Qle_refl.
Qed.

(** ** Retry executor *)

(** C4. [retry] of an external call, with any attempt count [N >= 1] and
    delay [D] (the callers use the defaults 5 and 5000 ms): if the first
    [j] attempts fail non-fatally and attempt [j] (with [j < N]) fails with
    an error whose message includes ['insufficient funds'], it throws
    [Error('Insufficient funds')] after exactly [j + 1] attempts; if all
    [N] attempts fail non-fatally, it makes exactly [N] attempts and
    throws the last failure. *)
Theorem retry_contract {A} (c : CallTag) (sel : World -> nat -> Res A) (N : nat) (D : Z)
    (s : St) :
  (1 <= N)%nat ->
  (forall j e, (j < N)%nat ->
     (forall i, (i < j)%nat -> transient (sel (world s) (clock s + i))) ->
     sel (world s) (clock s + j) = Exc e -> isInsufficientFunds e = true ->
     let r := retry (ext c sel) N D s in
     fst r = Exc (TError "Insufficient funds") /\
     clock (snd r) = (clock s + S j)%nat /\
     calls (trace (snd r)) = calls (trace s) ++ repeat c (S j)) /\
  (forall elast,
     (forall i, (i < N)%nat -> transient (sel (world s) (clock s + i))) ->
     sel (world s) (clock s + (N - 1)) = Exc elast ->
     let r := retry (ext c sel) N D s in
     fst r = Exc elast /\ clock (snd r) = (clock s + N)%nat /\
     calls (trace (snd r)) = calls (trace s) ++ repeat c N).
Proof.
  intros HN. split.
  - intros j e Hj Htr He Hf. unfold retry. apply (retry_loop_fatal c sel N D j N 0 _ s e); assumption.
  - intros elast Htr Hl. unfold retry. apply (retry_loop_transient c sel N D N 0 _ s elast Htr).
    + lia.
    + intros _. exact Hl.
Qed.

Lemma retry_contract_witness :
  (let r := retry (getActiveBin "pool") 5 5000 ex_no_funds in
   fst r = Exc (TError "Insufficient funds") /\ clock (snd r) = 1%nat /\
   calls (trace (snd r)) = [CGetActiveBin]) /\
  (let r := retry (getActiveBin "pool") 5 5000 ex_bin_timeout in
   fst r = Exc (TError "timeout") /\ clock (snd r) = 5%nat /\
   calls (trace (snd r)) = repeat CGetActiveBin 5).
Proof.
  split.
  - destruct (retry_contract CGetActiveBin (fun w n => w_getActiveBin w n "pool") 5 5000
                ex_no_funds ltac:(lia)) as [H _].
    apply (H 0%nat (TError "Transfer: insufficient funds for rent")).
    + lia.
    + intros i Hi. lia.
    + reflexivity.
    + vm_compute. reflexivity.
  - destruct (retry_contract CGetActiveBin (fun w n => w_getActiveBin w n "pool") 5 5000
                ex_bin_timeout ltac:(lia)) as [_ H].
    apply (H (TError "timeout")).
    + intros i Hi. vm_compute. reflexivity.
    + reflexivity.
Defined.

(** ** Balance accessor *)

(** C9. With the pool details loaded (two distinct symbols) and both
    token balances read, [getUsableBalances] maps each symbol to its raw
    balance, except that a symbol equal to ['sol'] ignoring case gets
    [max(0, raw - NATIVE_TOKEN_FEE_BUFFER)]; with non-negative raw balances
    every amount returned is non-negative. *)
Theorem getUsableBalances_reserve st pd ra rb :
  _poolDetails st = Some pd -> assetASymbol pd <> assetBSymbol pd ->
  w_getBalance (world st) (clock st) (Some (assetAMintAddress pd)) = Ok ra ->
  w_getBalance (world st) (S (clock st)) (Some (assetBMintAddress pd)) = Ok rb ->
  let buf := cfg_feeBuffer (cfg st) in
  exists m : gmap string Q,
    fst (getUsableBalances st) = Ok m /\
    m !! assetASymbol pd =
      Some (if isNative (assetASymbol pd) then Qmax 0 (ra - buf) else ra) /\
    m !! assetBSymbol pd =
      Some (if isNative (assetBSymbol pd) then Qmax 0 (rb - buf) else rb) /\
    ((0 <= ra)%Q -> (0 <= rb)%Q -> forall k v, m !! k = Some v -> (0 <= v)%Q).
Proof.
  intros Hpd Hne Ha Hb buf.
  rewrite (getUsableBalances_run st pd ra rb Hpd Ha Hb). eexists. split; [reflexivity|].
  split; [apply bal_usable_A; exact Hne|]. split; [apply bal_usable_B|].
  intros Hra Hrb k v Hk.
  destruct (decide (k = assetBSymbol pd)) as [->|HkB].
  - rewrite lookup_insert_eq in Hk. injection Hk as <-. apply usable_nonneg, Hrb.
  - rewrite lookup_insert_ne in Hk by congruence.
    destruct (decide (k = assetASymbol pd)) as [->|HkA].
    + rewrite lookup_insert_eq in Hk. injection Hk as <-. apply usable_nonneg, Hra.
    + rewrite lookup_insert_ne, lookup_empty in Hk by congruence. discriminate.
Qed.

Lemma getUsableBalances_reserve_witness :
  let st := ex_state (Some ex_pool) 100 120 (defaultConfig (js_decimal 5 2))
              (steady_world (5 # 100) 7 (5 # 100) (Exc (TOther "undefined"))
                 (Ok []) (Ok ex_removed) (Ok ex_pair)) in
  exists m : gmap string Q,
    fst (getUsableBalances st) = Ok m /\
    m !! "SOL" = Some (if isNative "SOL" then Qmax 0 ((5 # 100) - (1 # 10)) else 5 # 100) /\
    m !! "USDC" = Some (if isNative "USDC" then Qmax 0 (7 - (1 # 10)) else 7)%Q /\
    ((0 <= 5 # 100)%Q -> (0 <= 7)%Q -> forall k (v : Q), m !! k = Some v -> (0 <= v)%Q).
Proof.
  intros st.
  apply (getUsableBalances_reserve st ex_pool (5 # 100) 7);
    [reflexivity|discriminate|reflexivity|reflexivity].
Defined.

(** ** Fee-reserve checks *)

(** C10 (as amended).  [verifyNativeTokenBalanceForFees] throws only when
    reading the native balance throws; once read, it alerts a warning
    exactly when the balance is below [NATIVE_TOKEN_MIN_BALANCE] and
    returns.  [verifyNativeTokenBufferForPositions] (run by [addLiquidity]
    and, directly before it, by [rebalance]) throws the insufficient-funds
    error exactly when the raw native balance is below
    [NATIVE_TOKEN_FEE_BUFFER], and otherwise returns; a failed read
    propagates. *)
Theorem fee_checks st :
  let s1 := record_event (EvCall (CGetBalance None) true) (tick st) in
  (forall b, w_getBalance (world st) (clock st) None = Ok b ->
     verifyNativeTokenBalanceForFees st =
       (Ok tt, if qlt b (cfg_minBalance (cfg st))
               then record_event (EvAlert WARNING (AmText "Low native token balance detected")) s1
               else s1) /\
     ((b < cfg_minBalance (cfg st))%Q <-> qlt b (cfg_minBalance (cfg st)) = true)) /\
  (forall e, w_getBalance (world st) (clock st) None = Exc e ->
     fst (verifyNativeTokenBalanceForFees st) = Exc e) /\
  (forall b, w_getBalance (world st) (clock st) None = Ok b ->
     (fst (verifyNativeTokenBufferForPositions st) =
        Exc (TError "Insufficient native token balance for position creation fees")
      <-> (b < cfg_feeBuffer (cfg st))%Q) /\
     (~ (b < cfg_feeBuffer (cfg st))%Q -> fst (verifyNativeTokenBufferForPositions st) = Ok tt)) /\
  (forall e, w_getBalance (world st) (clock st) None = Exc e ->
     fst (verifyNativeTokenBufferForPositions st) = Exc e).
Proof.
  intros s1.
  unfold verifyNativeTokenBalanceForFees, verifyNativeTokenBufferForPositions, getBalance.
  rewrite !ext_bind. repeat split.
  - rewrite H, gets_bind, cfg_rec_tick. destruct (qlt b _); reflexivity.
  - intros Hlt. apply qlt_spec, Hlt.
  - intros Hq. apply qlt_spec, Hq.
  - intros e He. rewrite He. reflexivity.
  - rewrite H, gets_bind, cfg_rec_tick. destruct (qlt b _) eqn:E; simpl; [|discriminate].
    intros _. apply qlt_spec, E.
  - intros Hlt. rewrite H, gets_bind, cfg_rec_tick. apply qlt_spec in Hlt. rewrite Hlt. reflexivity.
  - intros Hnlt. rewrite H, gets_bind, cfg_rec_tick. destruct (qlt b _) eqn:E; [|reflexivity].
    apply qlt_spec in E. contradiction.
  - intros e He. rewrite He. reflexivity.
Qed.

(** C10, counterexample: [verifyNativeTokenBalanceForFees] does fail, with
    the wallet's error, when reading the native balance fails. *)
Lemma fee_check_can_fail :
  fst (verifyNativeTokenBalanceForFees
         (ex_state (Some ex_pool) 100 120 (defaultConfig (js_decimal 5 2))
            (mkWorld (fun _ _ => Exc (TError "fetch failed")) (fun _ _ => Exc (TOther "undefined"))
               (fun _ _ => Ok []) (fun _ _ _ a => Ok a) (fun _ _ _ _ _ => Ok tt)
               (fun _ _ => Ok ex_removed) (fun _ _ => Ok ex_pair))))
  = Exc (TError "fetch failed").
Proof. reflexivity. Qed.

(** ** Asset balancer *)



Lemma retry_first_ok {A} c (sel : World -> nat -> Res A) N D s a :
  (1 <= N)%nat -> sel (world s) (clock s) = Ok a ->
  retry (ext c sel) N D s = (Ok a, record_event (EvCall c true) (tick s)).
Proof.
  intros HN Ha. unfold retry. destruct N as [|N]; [lia|].
  simpl retry_loop. unfold catch, ext. cbv zeta. rewrite Ha. reflexivity.
Qed.

Lemma bind_keeps_after {T A B} (f : St -> T) (m : M A) (k : A -> M B) s :
  (forall a, Keeps f (k a)) -> f (snd ((m ≫= k) s)) = f (snd (m s)).
Proof.
  intros Hk. rewrite bind_run. destruct (m s) as [[a|e] s']; [apply Hk|reflexivity].
Qed.





Lemma half_lt (Y Z : Q) : (Y / 2 < Z <-> Y < Z * 2)%Q.
Proof.
  rewrite <- (Qmult_lt_r _ _ 2) by reflexivity.
  assert (H : (Y / 2 * 2 == Y)%Q) by field. rewrite H. reflexivity.
Qed.

Lemma target_A_lt (A B p : Q) : (0 < p)%Q -> ((A * p + B) / 2 / p < A <-> B < A * p)%Q.
Proof.
  intros Hp.
  assert (Hq : ((A * p + B) / 2 / p * p == (A * p + B) / 2)%Q).
  { field. intros H0. rewrite H0 in Hp. apply (Qlt_irrefl 0), Hp. }
  rewrite <- (Qmult_lt_r _ A p Hp), Hq. clear Hq.
  rewrite half_lt. generalize (A * p)%Q. intros X. split; intros; lra.
Qed.

Lemma target_B_lt (A B p : Q) : ((A * p + B) / 2 < B <-> A * p < B)%Q.
Proof. rewrite half_lt. generalize (A * p)%Q. intros X. split; intros; lra. Qed.




(** C8 (as amended).  On doubles [A], [p], [B], with the targets
    [tB = (A*p + B)/2] and [tA = tB/p] computed in binary64, the balancer
    submits no swap exactly when neither [A > tA] nor [B > tB] (there is
    no tolerance); it sells [A - tA] of A exactly when [A > tA], and
    sells [B - tB] of B exactly when [A > tA] fails and [B > tB] holds,
    so at most one direction fires, by the [else]; a [NaN] balance or
    price gives no swap. *)
Theorem rebalance_decision64_cases A p B :
  let tB := js_div (js_add (js_mul A p) B) (js_of_Z 2) in
  let tA := js_div tB p in
  (rebalance_decision64 A p B = NoSwap <-> js_lt tA A = false /\ js_lt tB B = false) /\
  (forall x, rebalance_decision64 A p B = SwapAForB x <->
     js_lt tA A = true /\ x = js_sub A tA) /\
  (forall x, rebalance_decision64 A p B = SwapBForA x <->
     js_lt tA A = false /\ js_lt tB B = true /\ x = js_sub B tB) /\
  (A = S754_nan \/ p = S754_nan \/ B = S754_nan -> rebalance_decision64 A p B = NoSwap).
Proof.
  intros tB tA.
  assert (Hd : rebalance_decision64 A p B =
    if js_lt tA A then SwapAForB (js_sub A tA)
    else if js_lt tB B then SwapBForA (js_sub B tB) else NoSwap) by reflexivity.
  split; [|split; [|split]].
  - rewrite Hd. destruct (js_lt tA A), (js_lt tB B); intuition discriminate.
  - intros x. rewrite Hd. destruct (js_lt tA A), (js_lt tB B); split; intros H;
      try discriminate; try (injection H as <-; auto);
      repeat match goal with H : _ /\ _ |- _ => destruct H end; subst; congruence.
  - intros x. rewrite Hd. destruct (js_lt tA A), (js_lt tB B); split; intros H;
      try discriminate; try (injection H as <-; auto);
      repeat match goal with H : _ /\ _ |- _ => destruct H end; subst; congruence.
  - unfold rebalance_decision64, js_add, js_mul, js_div, js_lt. cbv zeta.
    intros [-> | [-> | ->]].
    + reflexivity.
    + destruct A; reflexivity.
    + destruct (SFmul js_prec js_emax A p); reflexivity.
Qed.

Lemma rebalance_decision64_cases_witness :
  rebalance_decision64 (js_of_Z 10) (js_of_Z 2) (js_of_Z 0) = SwapAForB (js_of_Z 5).
Proof.
  destruct (rebalance_decision64_cases (js_of_Z 10) (js_of_Z 2) (js_of_Z 0)) as (_ & HA & _).
  apply HA. vm_compute. split; reflexivity.
Defined.

(** C8, counterexample: [A = 0.03], [p = 37], [B = 1.11] is the exact
    50/50 split ([0.03 * 37 = 1.11]), yet in doubles both [A > tA] and
    [B > tB] hold and the balancer sells a positive amount of A; and
    [A = 2.9], [p = 229.1127], [B = 664.4268300000001] has [A*p < B],
    yet no swap is submitted. *)
Lemma rebalance_decision64_balanced_swaps :
  (let A := js_decimal 3 2 in let p := js_of_Z 37 in let B := js_decimal 111 2 in
   let tB := js_div (js_add (js_mul A p) B) (js_of_Z 2) in
   let tA := js_div tB p in
   js_lt tA A = true /\ js_lt tB B = true /\
   exists x, rebalance_decision64 A p B = SwapAForB x /\ js_lt (js_of_Z 0) x = true) /\
  rebalance_decision64 (js_decimal 29 1) (js_decimal 2291127 4) (js_decimal 6644268300000001 13)
    = NoSwap.
Proof.
  split.
  - cbv zeta. split; [vm_compute; reflexivity|]. split; [vm_compute; reflexivity|].
    eexists. split; [vm_compute; reflexivity | vm_compute; reflexivity].
  - vm_compute. reflexivity.
Qed.

(** ** Range width *)

Lemma keeps_getPoolDetails {T} (f : St -> T) addr :
  (forall s, f (tick s) = f s) -> (forall ev s, f (record_event ev s) = f s) ->
  Keeps f (getPoolDetails addr).
Proof.
  intros Ht Hr. unfold getPoolDetails.
  apply (keeps_catch f).
  - apply (keeps_bind f).
    + apply (keeps_ext f (fun _ => True) Ht (fun ev s _ => Hr ev s)). trivial.
    + intros data. cbv zeta. destruct (_ || _); [apply keeps_throw | apply keeps_ret].
  - intros e. apply (keeps_bind f).
    + apply (keeps_emit f (fun _ => True) (fun ev s _ => Hr ev s)). trivial.
    + intros _. apply keeps_ret.
Qed.

Lemma alerts_rec ev s : alert_of ev = None ->
  alerts (trace (record_event ev s)) = alerts (trace s).
Proof. intros H. unfold alerts. simpl. rewrite omap_snoc, H. apply app_nil_r. Qed.

(** [Math.min(x, 34)] is never above 34, and is 34 whenever [x] is. *)
Lemma Math_min_max_bins (x : spec_float) :
  let max := js_of_Z METERORA_MAX_BINS_PER_SIDE in
  js_lt max (Math_min x max) = false /\ (js_lt max x = true -> Math_min x max = max).
Proof.
  cbv zeta.
  replace (js_of_Z METERORA_MAX_BINS_PER_SIDE) with (S754_finite false 4785074604081152 (-47))
    by (vm_compute; reflexivity).
  destruct x as [sx|[]| |sx mx ex]; try (split; [vm_compute; reflexivity | discriminate]).
  - split; [reflexivity | reflexivity].
  - unfold Math_min. destruct (js_lt _ (S754_finite sx mx ex)) eqn:E.
    + split; [vm_compute; reflexivity | reflexivity].
    + split; [exact E | discriminate].
Qed.

(** C3 (as amended).  Once [getPoolDetails] returns the details [pd]
    (with bin step [g]), [loadInitialState] computes, in doubles,
    [ri = Math.ceil(r * 10000 / g)] and stores [Math.min(ri, 34)]; it
    sends a warning alert, and only one, exactly when [ri > 34], and the
    stored width is then 34; the stored width is never above 34.  There
    is no lower clamp. *)
Theorem loadInitialState_width st pd :
  fst (getPoolDetails (poolAddress st) st) = Ok (Some pd) ->
  let s1 := snd (getPoolDetails (poolAddress st) st) in
  let r := cfg_rangeRel (cfg st) in
  let ri := Math_ceil (js_div (js_mul r (js_of_Z 10000)) (js_of_Z (binStep pd))) in
  let max := js_of_Z METERORA_MAX_BINS_PER_SIDE in
  let s' := snd (loadInitialState_setup st) in
  meteoraRangeInterval s' = Some (Math_min ri max) /\
  alerts (trace s') = alerts (trace s1) ++
    (if js_lt max ri then [(WARNING, AmRangeClip ri)] else []) /\
  js_lt max (Math_min ri max) = false /\
  (js_lt max ri = true -> Math_min ri max = max).
Proof.
  intros Hpd s1 r ri max s'.
  assert (Hcfg : cfg s1 = cfg st).
  { apply keeps_getPoolDetails; reflexivity. }
  assert (Hrun : getPoolDetails (poolAddress st) st = (Ok (Some pd), s1)).
  { unfold s1. destruct (getPoolDetails (poolAddress st) st); simpl in *; congruence. }
  set (f := fun s => (meteoraRangeInterval s, alerts (trace s))).
  assert (Hs' : f s' =
    (Some (Math_min ri max),
     alerts (trace s1) ++ (if js_lt max ri then [(WARNING, AmRangeClip ri)] else []))).
  { unfold s', loadInitialState_setup. rewrite gets_bind.
    rewrite (bind_ok _ _ st (Some pd) s1 Hrun).
    rewrite (bind_ok _ _ s1 tt (set_poolDetails (Some pd) s1)) by reflexivity.
    rewrite (bind_ok _ _ _ tt (set_poolDetails (Some pd) s1)) by reflexivity.
    rewrite (bind_ok _ _ _ pd (set_poolDetails (Some pd) s1)) by reflexivity.
    rewrite gets_bind. cbv zeta.
    change (cfg (set_poolDetails (Some pd) s1)) with (cfg s1). rewrite Hcfg. fold r ri max.
    set (s2 := set_poolDetails (Some pd) s1).
    assert (Ha2 : alerts (trace s2) = alerts (trace s1)) by reflexivity.
    destruct (js_lt max ri).
    - rewrite (bind_ok _ _ s2 tt (record_event (EvAlert WARNING (AmRangeClip ri)) s2)) by reflexivity.
      rewrite (bind_ok _ _ _ tt _) by reflexivity.
      rewrite (bind_keeps_after f).
      2:{ intros _. apply keeps_ret. }
      etransitivity.
      + apply (keeps_getUsableBalances f (fun ev => alert_of ev = None)).
        * reflexivity.
        * intros ev s Hev. unfold f. rewrite alerts_rec by exact Hev. reflexivity.
        * intros [c ok| | |] Hev; try contradiction. reflexivity.
      + unfold f. simpl. f_equal. unfold alerts. rewrite omap_snoc. simpl. f_equal.
    - rewrite (bind_ok _ _ s2 tt s2) by reflexivity.
      rewrite (bind_ok _ _ _ tt _) by reflexivity.
      rewrite (bind_keeps_after f).
      2:{ intros _. apply keeps_ret. }
      etransitivity.
      + apply (keeps_getUsableBalances f (fun ev => alert_of ev = None)).
        * reflexivity.
        * intros ev s Hev. unfold f. rewrite alerts_rec by exact Hev. reflexivity.
        * intros [c ok| | |] Hev; try contradiction. reflexivity.
      + unfold f. simpl. rewrite app_nil_r. reflexivity. }
  unfold f in Hs'. injection Hs' as H1 H2.
  split; [exact H1|]. split; [exact H2|]. apply Math_min_max_bins.
Qed.

Lemma loadInitialState_width_witness :
  meteoraRangeInterval (snd (loadInitialState_setup (ex_startup (js_decimal 5 2) ex_pair)))
    = Some (js_of_Z 20) /\
  alerts (trace (snd (loadInitialState_setup (ex_startup (js_decimal 5 2) ex_pair)))) = [] /\
  meteoraRangeInterval (snd (loadInitialState_setup (ex_startup (js_decimal 5 1) ex_pair1)))
    = Some (js_of_Z 34) /\
  alerts (trace (snd (loadInitialState_setup (ex_startup (js_decimal 5 1) ex_pair1)))) =
    [(WARNING, AmRangeClip (js_of_Z 5000))] /\
  meteoraRangeInterval (snd (loadInitialState_setup (ex_startup (js_decimal 7 2) ex_pair)))
    = Some (js_of_Z 29) /\
  meteoraRangeInterval (snd (loadInitialState_setup (ex_startup (js_decimal 85 3) ex_pair)))
    = Some (js_of_Z 34) /\
  alerts (trace (snd (loadInitialState_setup (ex_startup (js_decimal 85 3) ex_pair)))) =
    [(WARNING, AmRangeClip (js_of_Z 35))].
Proof.
  destruct (loadInitialState_width (ex_startup (js_decimal 5 2) ex_pair) ex_pool
              ltac:(vm_compute; reflexivity)) as (H1 & H2 & _).
  destruct (loadInitialState_width (ex_startup (js_decimal 5 1) ex_pair1)
              (mkPoolDetails 1 "mintA" "mintB" "SOL" "USDC")
              ltac:(vm_compute; reflexivity)) as (H3 & H4 & _).
  destruct (loadInitialState_width (ex_startup (js_decimal 7 2) ex_pair) ex_pool
              ltac:(vm_compute; reflexivity)) as (H5 & _).
  destruct (loadInitialState_width (ex_startup (js_decimal 85 3) ex_pair) ex_pool
              ltac:(vm_compute; reflexivity)) as (H6 & H7 & _).
  rewrite H1, H2, H3, H4, H5, H6, H7. vm_compute.
  repeat split; reflexivity.
Defined.

(** C3, counterexample: with [r = 0] and bin step 25 the stored width is
    0, so it is neither clamped up to 1 nor positive. *)
Lemma loadInitialState_zero_width :
  meteoraRangeInterval (snd (loadInitialState_setup (ex_startup (js_of_Z 0) ex_pair)))
    = Some (js_of_Z 0).
Proof. vm_compute. reflexivity. Qed.

(** ** Positions created *)

Lemma pc_tick s : positions_created (trace (tick s)) = positions_created (trace s).
Proof. reflexivity. Qed.

Lemma pc_rec ev s : no_add ev ->
  positions_created (trace (record_event ev s)) = positions_created (trace s).
Proof.
  intros H. unfold positions_created, ok_calls. simpl. rewrite omap_snoc.
  destruct ev as [c [|]| | |]; simpl in *; rewrite ?app_nil_r; try reflexivity.
  rewrite List.filter_app. simpl. rewrite H. rewrite app_nil_r. reflexivity.
Qed.

Lemma pc_snoc_add tr c : is_add c = true ->
  length (List.filter is_add (ok_calls tr ++ [c])) = S (positions_created tr).
Proof.
  intros H. unfold positions_created. rewrite List.filter_app, length_app. simpl. rewrite H.
  simpl. lia.
Qed.

Lemma keeps_pc_collect : Keeps (fun s => positions_created (trace s)) addLiquidity_collect.
Proof.
  unfold addLiquidity_collect. apply keeps_bind.
  - apply (keeps_retryGetPositions_loop _ no_add pc_tick pc_rec).
    intros [c ok| | |] Hev; try exact I. destruct ok; [|exact I]. destruct c; try contradiction. reflexivity.
  - intros [|p rest]; [apply keeps_ret|]. intros s. reflexivity.
Qed.

Lemma addLiquidity_deposit_adds s s' :
  addLiquidity_deposit s = (Ok tt, s') ->
  positions_created (trace s') = S (positions_created (trace s)).
Proof.
  unfold addLiquidity_deposit. intros H.
  apply bind_ok_inv in H as ([] & s1 & H1 & H).
  apply bind_ok_inv in H as (bals & s2 & H2 & H).
  apply bind_ok_inv in H as (pd & s3 & H3 & H).
  apply bind_ok_inv in H as (addr & s4 & H4 & H).
  apply bind_ok_inv in H as (ri & s5 & H5 & H).
  cbv zeta in H. apply bind_ok_inv in H as ([] & s6 & H6 & H7).
  injection H4 as <- <-. injection H5 as <- <-.
  pose proof (keeps_verifyNativeTokenBufferForPositions _ no_add pc_tick pc_rec) as K1.
  pose proof (keeps_getUsableBalances _ no_add pc_tick pc_rec) as K2.
  pose proof (keeps_poolDetails_get (fun s => positions_created (trace s)) s2) as K3.
  specialize (K1 ltac:(intros [c ok| | |] Hev; try exact I; destruct c; try contradiction; destruct ok; reflexivity) s).
  specialize (K2 ltac:(intros [c ok| | |] Hev; try exact I; destruct c; try contradiction; destruct ok; reflexivity) s1).
  rewrite H1 in K1. rewrite H2 in K2. rewrite H3 in K3. simpl in K1, K2, K3.
  set (c := CAddLiquidity (bal bals (assetASymbol pd)) (bal bals (assetBSymbol pd))
              (meteoraRangeInterval s3)) in H6.
  destruct (retry_loop_ext_calls c
              (fun w n => w_addLiquidity w n (poolAddress s3) (bal bals (assetASymbol pd))
                            (bal bals (assetBSymbol pd)) (meteoraRangeInterval s3))
              5 5000 5 0 (TOther "undefined") s3 ltac:(lia)) as (j & _ & _ & _ & _ & Hok).
  unfold retry in H6. rewrite H6 in Hok. simpl in Hok.
  injection H7 as <-. rewrite pc_rec by exact I.
  unfold positions_created at 1. rewrite Hok, pc_snoc_add by reflexivity.
  rewrite K3, K2, K1. reflexivity.
Qed.

Lemma addLiquidity_adds s s' :
  addLiquidity s = (Ok tt, s') ->
  positions_created (trace s') = S (positions_created (trace s)).
Proof.
  unfold addLiquidity. intros H.
  apply bind_ok_inv in H as ([] & s1 & H1 & H2).
  pose proof (keeps_pc_collect s1) as K. rewrite H2 in K. simpl in K.
  rewrite K. apply addLiquidity_deposit_adds, H1.
Qed.

(** ** Start-up *)

(** C6.  After the set-up of [loadInitialState] has succeeded and the
    position query [retryGetPositions(3)] has returned [L]: if [L] is
    empty, [loadInitialState] goes on with the fee check,
    [rebalancePosition] and [addLiquidity], in that order, and if it
    returns, it returns [true] having created exactly one position; if [L]
    starts with position [p], it adopts [p]'s bounds, creates nothing and
    returns [false]. *)
Theorem loadInitialState_branches st s0 L s1 :
  loadInitialState_setup st = (Ok tt, s0) ->
  retryGetPositions 3 5000 s0 = (Ok L, s1) ->
  (L = [] ->
     loadInitialState st =
       (verifyNativeTokenBalanceForFees;; rebalancePosition;; addLiquidity;; mret true) s1 /\
     (forall b s2, loadInitialState st = (Ok b, s2) ->
        b = true /\ positions_created (trace s2) = S (positions_created (trace s1)))) /\
  (forall p rest, L = p :: rest ->
     loadInitialState st = (Ok false, set_bounds (lowerBinId p) (upperBinId p) s1) /\
     bounds (set_bounds (lowerBinId p) (upperBinId p) s1) = (lowerBinId p, upperBinId p) /\
     trace (set_bounds (lowerBinId p) (upperBinId p) s1) = trace s1).
Proof.
  intros Hsetup Hpos.
  assert (Hrun : loadInitialState st = loadInitialState_branch L s1).
  { unfold loadInitialState. rewrite (bind_ok _ _ st tt s0 Hsetup).
    apply (bind_ok _ _ s0 L s1 Hpos). }
  split.
  - intros ->. rewrite Hrun. split; [reflexivity|].
    intros b s2 H. simpl in H.
    apply bind_ok_inv in H as ([] & s3 & H3 & H).
    apply bind_ok_inv in H as ([] & s4 & H4 & H).
    apply bind_ok_inv in H as ([] & s5 & H5 & H6).
    injection H6 as <- <-. split; [reflexivity|].
    rewrite (addLiquidity_adds s4 s5 H5).
    pose proof (keeps_verifyNativeTokenBalanceForFees _ no_add pc_tick pc_rec) as K1.
    pose proof (keeps_rebalancePosition _ no_add pc_tick pc_rec) as K2.
    specialize (K1 ltac:(intros [c ok| | |] Hev; try exact I; destruct c; try contradiction; destruct ok; reflexivity) s1).
    specialize (K2 ltac:(intros [c ok| | |] Hev; try exact I; destruct c; try contradiction; destruct ok; reflexivity) s3).
    rewrite H3 in K1. rewrite H4 in K2. simpl in K1, K2. rewrite K2, K1. reflexivity.
  - intros p rest ->. rewrite Hrun. auto.
Qed.

Lemma loadInitialState_branches_witness :
  fst (loadInitialState (ex_startup (js_decimal 5 2) ex_pair)) = Ok true /\
  positions_created (trace (snd (loadInitialState (ex_startup (js_decimal 5 2) ex_pair)))) = 1%nat.
Proof.
  set (st := ex_startup (js_decimal 5 2) ex_pair).
  set (s0 := snd (loadInitialState_setup st)).
  set (s1 := snd (retryGetPositions 3 5000 s0)).
  destruct (loadInitialState_branches st s0 [] s1 ltac:(vm_compute; reflexivity)
              ltac:(vm_compute; reflexivity)) as [H _].
  destruct (H eq_refl) as [_ H2].
  destruct (H2 true (snd (loadInitialState st)) ltac:(vm_compute; reflexivity)) as [_ Hpc].
  split; [vm_compute; reflexivity|]. rewrite Hpc. vm_compute. reflexivity.
Defined.

(** ** The decision cycle *)

Ltac fp_no_add := intros [? [|]| | |] ?; try exact I; simpl in *; try contradiction;
  match goal with |- is_add ?c = false => destruct c; first [contradiction | reflexivity] end.

Lemma keeps_retry_activeBin {T} (f : St -> T) (P : Event -> Prop) addr :
  (forall s, f (tick s) = f s) -> (forall ev s, P ev -> f (record_event ev s) = f s) ->
  (forall ok, P (EvCall CGetActiveBin ok)) -> (forall ms, P (EvSleep ms)) ->
  Keeps f (retry (getActiveBin addr) 5 5000).
Proof.
  intros Ht Hr Hc Hs. unfold retry, getActiveBin.
  apply (keeps_retry_loop f P Hr); [|exact Hs].
  apply (keeps_ext f P Ht Hr). exact Hc.
Qed.

Lemma rebalance_body_run st ab st1 :
  poolAddress st <> "" ->
  retry (getActiveBin (poolAddress st)) 5 5000 st = (Ok ab, st1) ->
  rebalance_body st =
    if Z.ltb (binId ab) (currLowerBinId st) || Z.ltb (currUpperBinId st) (binId ab) then
      match relocate (record_event (EvLog (LgOutOfRange (binId ab) (currLowerBinId st)
                                             (currUpperBinId st))) st1) with
      | (Ok _, s2) => (Ok true, s2)
      | (Exc e, s2) => (Exc e, s2)
      end
    else (Ok false, st1).
Proof.
  intros Haddr Hab.
  pose proof (keeps_retry_activeBin bounds (fun _ => True) (poolAddress st)
                bounds_tick (fun ev s _ => bounds_rec ev s) (fun _ => I) (fun _ => I) st) as Kb.
  rewrite Hab in Kb. simpl in Kb. unfold bounds in Kb. injection Kb as Hlo Hhi.
  unfold rebalance_body. rewrite gets_bind.
  apply String.eqb_neq in Haddr. rewrite Haddr.
  rewrite (bind_ok _ _ st tt st) by reflexivity.
  rewrite (bind_ok _ _ st ab st1 Hab).
  rewrite !gets_bind, Hlo, Hhi.
  destruct (_ || _); [|reflexivity].
  rewrite bind_run. simpl. rewrite bind_run.
  destruct (relocate _) as [[[]|e] s2]; reflexivity.
Qed.

Lemma rebalance_handler_not_true e s b s' :
  rebalance_handler e s = (Ok b, s') -> b = false.
Proof.
  unfold rebalance_handler. intros H.
  apply bind_ok_inv in H as ([] & s1 & _ & H).
  apply bind_ok_inv in H as ([] & s2 & _ & H).
  injection H as <-. reflexivity.
Qed.

(** A cycle that reports a change has read an out-of-range active bin and
    completed the relocation. *)
Lemma rebalance_true_inv st s2 :
  rebalance st = (Ok true, s2) ->
  exists ab st1,
    poolAddress st <> "" /\
    retry (getActiveBin (poolAddress st)) 5 5000 st = (Ok ab, st1) /\
    (Z.ltb (binId ab) (currLowerBinId st) || Z.ltb (currUpperBinId st) (binId ab)) = true /\
    relocate (record_event (EvLog (LgOutOfRange (binId ab) (currLowerBinId st)
                                     (currUpperBinId st))) st1) = (Ok tt, s2).
Proof.
  unfold rebalance, catch. intros H.
  destruct (rebalance_body st) as [[b|e] s1] eqn:Eb.
  2:{ apply rebalance_handler_not_true in H. discriminate. }
  injection H as -> ->.
  unfold rebalance_body in Eb. rewrite gets_bind in Eb.
  destruct (String.eqb (poolAddress st) "") eqn:Ea; [discriminate|].
  apply String.eqb_neq in Ea.
  apply bind_ok_inv in Eb as ([] & s0 & H0 & Eb). injection H0 as <-.
  apply bind_ok_inv in Eb as (ab & st1 & Hab & Eb).
  exists ab, st1. split; [exact Ea|]. split; [exact Hab|].
  pose proof (keeps_retry_activeBin bounds (fun _ => True) (poolAddress st)
                bounds_tick (fun ev s _ => bounds_rec ev s) (fun _ => I) (fun _ => I) st) as Kb.
  rewrite Hab in Kb. simpl in Kb. unfold bounds in Kb. injection Kb as Hlo Hhi.
  rewrite !gets_bind, Hlo, Hhi in Eb.
  destruct (_ || _); [|discriminate]. split; [reflexivity|].
  rewrite bind_run in Eb. simpl in Eb. rewrite bind_run in Eb.
  destruct (relocate _) as [[[]|e] s3]; cbv [mret M_ret] in Eb; congruence.
Qed.

Lemma relocate_collect s s2 :
  relocate s = (Ok tt, s2) ->
  exists s1 L s1',
    bounds s1 = bounds s /\
    positions_created (trace s1) = S (positions_created (trace s)) /\
    retryGetPositions 10 10000 s1 = (Ok L, s1') /\
    bounds s1' = bounds s1 /\
    s2 = match L with [] => s1' | p :: _ => set_bounds (lowerBinId p) (upperBinId p) s1' end.
Proof.
  unfold relocate, addLiquidity. intros H.
  apply bind_ok_inv in H as ([] & sa & Ha & H).
  apply bind_ok_inv in H as ([] & sb & Hb & H).
  apply bind_ok_inv in H as ([] & sc & Hc & H).
  apply bind_ok_inv in H as ([] & s1 & H1 & H).
  unfold addLiquidity_collect in H.
  apply bind_ok_inv in H as (L & s1' & HL & H).
  exists s1, L, s1'.
  pose proof (keeps_removeLiquidity bounds (fun _ => True) bounds_tick (fun ev s _ => bounds_rec ev s) (fun _ _ => I) s) as B1.
  pose proof (keeps_rebalancePosition bounds (fun _ => True) bounds_tick (fun ev s _ => bounds_rec ev s) (fun _ _ => I) sa) as B2.
  pose proof (keeps_verifyNativeTokenBufferForPositions bounds (fun _ => True) bounds_tick (fun ev s _ => bounds_rec ev s) (fun _ _ => I) sb) as B3.
  pose proof (keeps_addLiquidity_deposit bounds (fun _ => True) bounds_tick (fun ev s _ => bounds_rec ev s) (fun _ _ => I) sc) as B4.
  pose proof (keeps_retryGetPositions_loop bounds (fun _ => True) bounds_tick (fun ev s _ => bounds_rec ev s) 10 10000 (fun _ _ => I) 10 0 [] s1) as B5.
  pose proof (keeps_removeLiquidity _ no_add pc_tick pc_rec ltac:(fp_no_add) s) as P1.
  pose proof (keeps_rebalancePosition _ no_add pc_tick pc_rec ltac:(fp_no_add) sa) as P2.
  pose proof (keeps_verifyNativeTokenBufferForPositions _ no_add pc_tick pc_rec ltac:(fp_no_add) sb) as P3.
  rewrite Ha in B1, P1. rewrite Hb in B2, P2. rewrite Hc in B3, P3. rewrite H1 in B4.
  unfold retryGetPositions in HL. rewrite HL in B5. simpl in *.
  split; [congruence|]. split.
  - rewrite (addLiquidity_deposit_adds sc s1 H1). congruence.
  - split; [exact HL|]. split; [exact B5|].
    destruct L as [|p rest]; injection H as <-; reflexivity.
Qed.

Lemma wp_tick s : (world (tick s), poolAddress (tick s)) = (world s, poolAddress s).
Proof. reflexivity. Qed.

Lemma wp_rec ev s : True ->
  (world (record_event ev s), poolAddress (record_event ev s)) = (world s, poolAddress s).
Proof. reflexivity. Qed.

(** The relocation never changes the world nor the pool address. *)
Lemma keeps_wp_relocate : Keeps (fun s => (world s, poolAddress s)) relocate.
Proof.
  set (f := fun s => (world s, poolAddress s)).
  unfold relocate, addLiquidity, addLiquidity_collect.
  apply (keeps_bind f); [apply (keeps_removeLiquidity f _ wp_tick wp_rec); trivial | intros _].
  apply (keeps_bind f); [apply (keeps_rebalancePosition f _ wp_tick wp_rec); trivial | intros _].
  apply (keeps_bind f);
    [apply (keeps_verifyNativeTokenBufferForPositions f _ wp_tick wp_rec); trivial | intros _].
  apply (keeps_bind f); [apply (keeps_addLiquidity_deposit f _ wp_tick wp_rec); trivial | intros _].
  apply (keeps_bind f).
  - apply (keeps_retryGetPositions_loop f _ wp_tick wp_rec). trivial.
  - intros [|p rest]; [apply keeps_ret | intros s; reflexivity].
Qed.

Lemma relocate_adds s s2 :
  relocate s = (Ok tt, s2) -> positions_created (trace s2) = S (positions_created (trace s)).
Proof.
  intros H. destruct (relocate_collect s s2 H) as (s1 & L & s1' & _ & Hpc & HL & _ & ->).
  pose proof (keeps_pc_collect s1) as K. unfold addLiquidity_collect in K.
  rewrite bind_run, HL in K.
  rewrite <- Hpc. destruct L as [|p rest]; exact K.
Qed.

(** C1 (as amended).  Suppose the pool address is set and the retried
    active-bin read returns [x].  If [lower <= x <= upper], [rebalance]
    returns [false], the cached fields are unchanged and the only calls
    made were the active-bin reads.  If [x < lower] or [x > upper], it logs
    the breach and runs the relocation sequence once: it returns [true]
    when the relocation completes, and otherwise whatever the catch block
    gives ([false], or the error of a re-run [loadInitialState]); so a
    [true] comes with exactly one new position. *)
Theorem rebalance_decision st ab st1 :
  poolAddress st <> "" ->
  retry (getActiveBin (poolAddress st)) 5 5000 st = (Ok ab, st1) ->
  let lo := currLowerBinId st in
  let hi := currUpperBinId st in
  let x := binId ab in
  let s' := record_event (EvLog (LgOutOfRange x lo hi)) st1 in
  ((lo <= x <= hi)%Z ->
     rebalance st = (Ok false, st1) /\ ctl st1 = ctl st /\
     exists j, (1 <= j <= 5)%nat /\ calls (trace st1) = calls (trace st) ++ repeat CGetActiveBin j) /\
  ((x < lo \/ hi < x)%Z ->
     rebalance st = match relocate s' with
                    | (Ok _, s2) => (Ok true, s2)
                    | (Exc e, s2) => rebalance_handler e s2
                    end /\
     (forall s2, rebalance st = (Ok true, s2) ->
        relocate s' = (Ok tt, s2) /\
        positions_created (trace s2) = S (positions_created (trace st)))).
Proof.
  intros Haddr Hab lo hi x s'.
  pose proof (rebalance_body_run st ab st1 Haddr Hab) as Hb.
  split.
  - intros Hin.
    assert (E : (Z.ltb x lo || Z.ltb hi x) = false).
    { apply orb_false_iff. split; apply Z.ltb_ge; lia. }
    unfold x, lo, hi in E. rewrite E in Hb.
    split; [unfold rebalance, catch; rewrite Hb; reflexivity|]. split.
    + pose proof (keeps_retry_activeBin ctl (fun _ => True) (poolAddress st)
                    ctl_tick (fun ev s _ => ctl_rec ev s) (fun _ => I) (fun _ => I) st) as K.
      rewrite Hab in K. exact K.
    + unfold retry, getActiveBin in Hab.
      destruct (retry_loop_ext_calls CGetActiveBin (fun w n => w_getActiveBin w n (poolAddress st))
                  5 5000 5 0 (TOther "undefined") st ltac:(lia)) as (j & Hj & _ & _ & Hc & _).
      rewrite Hab in Hc. exists j. split; [exact Hj|exact Hc].
  - intros Hout.
    assert (E : (Z.ltb x lo || Z.ltb hi x) = true).
    { apply orb_true_iff. destruct Hout; [left|right]; apply Z.ltb_lt; lia. }
    unfold x, lo, hi in E. rewrite E in Hb.
    assert (Hrun : rebalance st = match relocate s' with
                                  | (Ok _, s2) => (Ok true, s2)
                                  | (Exc e, s2) => rebalance_handler e s2
                                  end).
    { unfold rebalance, catch. rewrite Hb. fold lo hi x s'.
      destruct (relocate s') as [[[]|e] s2]; reflexivity. }
    split; [exact Hrun|].
    intros s2 Hs2. rewrite Hrun in Hs2.
    destruct (relocate s') as [[[]|e] s3] eqn:ER.
    + injection Hs2 as <-. split; [reflexivity|].
      rewrite (relocate_adds s' s3 ER).
      pose proof (keeps_retry_activeBin _ no_add (poolAddress st) pc_tick pc_rec
                    (fun ok => match ok with true => eq_refl | false => I end) (fun _ => I) st) as K.
      rewrite Hab in K. simpl in K. unfold s'. rewrite pc_rec by exact I. rewrite K. reflexivity.
    + apply rebalance_handler_not_true in Hs2. discriminate.
Qed.

Lemma rebalance_decision_witness :
  rebalance ex_in_range = (Ok false, snd (retry (getActiveBin "pool") 5 5000 ex_in_range)) /\
  ctl (snd (retry (getActiveBin "pool") 5 5000 ex_in_range)) = ctl ex_in_range.
Proof.
  destruct (rebalance_decision ex_in_range (mkBin 110 1)
              (snd (retry (getActiveBin "pool") 5 5000 ex_in_range))
              ltac:(discriminate) ltac:(vm_compute; reflexivity)) as [H _].
  destruct (H ltac:(simpl; lia)) as (H1 & H2 & _). split; assumption.
Defined.

(** C1, counterexample: active bin 130 is outside [100, 120] and the
    liquidity removal keeps failing: the relocation is entered but
    [rebalance] returns [false]. *)
Lemma rebalance_out_of_range_false :
  fst (rebalance ex_remove_fails) = Ok false.
Proof. vm_compute. reflexivity. Qed.

(** C5 (as amended).  When the [try] block of [rebalance] throws [e]: if
    the message of [e] does not include ['No positions found in this
    pool'], [rebalance] sends one error alert and returns [false]; if it
    does, [rebalance] first re-runs [loadInitialState], and returns
    [false] after the alert only when that re-run returns; an error of
    the re-run propagates out of [rebalance]. *)
Theorem rebalance_failure st e0 s1 :
  rebalance_body st = (Exc e0, s1) ->
  let alert := EvAlert ERROR (AmError "In rebalanceMeteora" e0) in
  (error_includes e0 "No positions found in this pool" = false ->
     rebalance st = (Ok false, record_event alert s1)) /\
  (error_includes e0 "No positions found in this pool" = true ->
     rebalance st = match loadInitialState s1 with
                    | (Ok _, s2) => (Ok false, record_event alert s2)
                    | (Exc e, s2) => (Exc e, s2)
                    end).
Proof.
  intros Hb alert. unfold rebalance, catch. rewrite Hb. unfold rebalance_handler.
  split; intros Hinc; rewrite Hinc.
  - reflexivity.
  - rewrite bind_run, bind_run. destruct (loadInitialState s1) as [[b|e] s2]; reflexivity.
Qed.

Lemma rebalance_failure_witness :
  fst (rebalance ex_bin_timeout) = Ok false.
Proof.
  destruct (rebalance_failure ex_bin_timeout (TError "timeout") (snd (rebalance_body ex_bin_timeout))
              ltac:(vm_compute; reflexivity)) as [H _].
  rewrite (H ltac:(vm_compute; reflexivity)). reflexivity.
Defined.

(** C5, counterexample: the active-bin read fails with ['No positions
    found in this pool'] and the pool API is down: the re-run
    [loadInitialState] throws and [rebalance] throws with it, instead of
    returning [false]. *)
Lemma rebalance_reload_throws :
  fst (rebalance ex_stale) = Exc (TError "Failed to get pool details for pool: pool").
Proof. vm_compute. reflexivity. Qed.

(** C7 (as amended).  When [rebalance] returns [true], the relocation
    added one position and then re-queried the positions
    ([retryGetPositions(10, 10000)]), on the same world and pool, from a
    state [s1] after the addition; the query returned [L] in the state
    [s1'] that the cycle ends in, up to the bounds: the cached bounds are
    those of the first position of [L], or, when [L] is empty, remain the
    bounds held before the cycle. *)
Theorem rebalance_readback st s2 :
  rebalance st = (Ok true, s2) ->
  exists s1 L s1',
    world s1 = world st /\ poolAddress s1 = poolAddress st /\
    positions_created (trace s1) = S (positions_created (trace st)) /\
    retryGetPositions 10 10000 s1 = (Ok L, s1') /\
    s2 = match L with [] => s1' | p :: _ => set_bounds (lowerBinId p) (upperBinId p) s1' end /\
    bounds s2 = match L with [] => bounds st | p :: _ => (lowerBinId p, upperBinId p) end.
Proof.
  intros H. destruct (rebalance_true_inv st s2 H) as (ab & st1 & Haddr & Hab & _ & Hrel).
  destruct (relocate_collect _ s2 Hrel) as (s1 & L & s1' & Hb1 & Hpc & HL & Hb1' & Hs2).
  pose proof (keeps_retry_activeBin bounds (fun _ => True) (poolAddress st)
                bounds_tick (fun ev s _ => bounds_rec ev s) (fun _ => I) (fun _ => I) st) as Kb.
  pose proof (keeps_retry_activeBin _ no_add (poolAddress st) pc_tick pc_rec
                (fun ok => match ok with true => eq_refl | false => I end) (fun _ => I) st) as Kp.
  pose proof (keeps_retry_activeBin _ (fun _ => True) (poolAddress st) wp_tick wp_rec
                (fun _ => I) (fun _ => I) st) as Kw.
  pose proof (keeps_wp_relocate (record_event (EvLog (LgOutOfRange (binId ab) (currLowerBinId st)
                                     (currUpperBinId st))) st1)) as Kr.
  pose proof (keeps_retryGetPositions_loop _ (fun _ => True) wp_tick wp_rec 10 10000
                (fun _ _ => I) 10 0 [] s1) as Kq.
  unfold retryGetPositions in HL. rewrite HL in Kq.
  rewrite Hab in Kb, Kp, Kw. rewrite Hrel in Kr. simpl in Kb, Kp, Kw, Kr, Kq.
  assert (Hw : (world s1, poolAddress s1) = (world st, poolAddress st)).
  { rewrite <- Kq, <- Kw, <- Kr, Hs2. destruct L; reflexivity. }
  injection Hw as Hw Ha.
  exists s1, L, s1'. split; [exact Hw|]. split; [exact Ha|].
  split; [|split; [exact HL|split; [exact Hs2|]]].
  - rewrite Hpc, pc_rec by exact I. rewrite Kp. reflexivity.
  - subst s2. destruct L as [|p rest]; [|reflexivity].
    rewrite Hb1', Hb1, bounds_rec. exact Kb.
Qed.

Lemma rebalance_readback_witness :
  fst (rebalance ex_relocating) = Ok true /\
  exists s1 L s1',
    world s1 = world ex_relocating /\ poolAddress s1 = poolAddress ex_relocating /\
    positions_created (trace s1) = S (positions_created (trace ex_relocating)) /\
    retryGetPositions 10 10000 s1 = (Ok L, s1') /\
    snd (rebalance ex_relocating) =
      match L with [] => s1' | p :: _ => set_bounds (lowerBinId p) (upperBinId p) s1' end /\
    bounds (snd (rebalance ex_relocating)) =
      match L with [] => bounds ex_relocating | p :: _ => (lowerBinId p, upperBinId p) end.
Proof.
  split; [vm_compute; reflexivity|].
  apply (rebalance_readback ex_relocating (snd (rebalance ex_relocating))).
  vm_compute. reflexivity.
Defined.

(** C7, counterexample: the position query after the addition keeps
    returning no position; [rebalance] still returns [true], with the
    bounds [100, 120] of the removed position left in place. *)
Lemma rebalance_stale_bounds :
  fst (rebalance ex_no_readback) = Ok true /\ bounds (snd (rebalance ex_no_readback)) = (100, 120)%Z.
Proof. split; vm_compute; reflexivity. Qed.

(** ** Polling for positions: [retryGetPositions] *)

Lemma sleeps_tick s : sleeps (trace (tick s)) = sleeps (trace s).
Proof. reflexivity. Qed.

Lemma sleeps_rec ev s :
  sleeps (trace (record_event ev s)) =
    sleeps (trace s) ++ match sleep_of ev with Some ms => [ms] | None => [] end.
Proof. unfold sleeps. simpl. apply omap_snoc. Qed.

Lemma calls_rec ev s :
  calls (trace (record_event ev s)) =
    calls (trace s) ++ match call_of ev with Some c => [c] | None => [] end.
Proof. unfold calls. simpl. apply omap_snoc. Qed.

Lemma repeat_snoc {X} (x : X) n : repeat x n ++ [x] = repeat x (S n).
Proof. induction n as [|n IH]; simpl; [reflexivity|]. rewrite IH. reflexivity. Qed.

Lemma repeat_cons {X} (x : X) n : x :: repeat x n = repeat x (S n).
Proof. reflexivity. Qed.

(** One attempt that answers no position or fails non-fatally: the
    optional pause, then the next iteration one tick later. *)
Lemma rgp_step retries D k a last s :
  empty_or_transient (w_getPositionsFromPool (world s) (clock s) (poolAddress s)) ->
  exists s2,
    retryGetPositions_loop retries D (S k) a last s =
      retryGetPositions_loop retries D k (S a)
        (match w_getPositionsFromPool (world s) (clock s) (poolAddress s) with Ok l => l | Exc _ => last end) s2 /\
    clock s2 = S (clock s) /\ world s2 = world s /\ poolAddress s2 = poolAddress s /\
    calls (trace s2) = calls (trace s) ++ [CGetPositionsFromPool] /\
    sleeps (trace s2) = sleeps (trace s) ++ (if Nat.ltb a (retries - 1) then [D] else []).
Proof.
  intros Ht. simpl retryGetPositions_loop. rewrite gets_bind, bind_run.
  unfold catch. rewrite bind_run. unfold getPositionsFromPool, ext. cbv zeta.
  destruct (w_getPositionsFromPool (world s) (clock s) (poolAddress s)) as [l|e] eqn:E; simpl in Ht.
  - subst l. simpl.
    destruct (Nat.ltb a (retries - 1)); simpl; eexists; (split; [reflexivity|]);
      simpl; unfold calls, sleeps; rewrite ?omap_app; simpl; rewrite ?app_nil_r;
      repeat split; reflexivity.
  - rewrite Ht. simpl.
    destruct (Nat.ltb a (retries - 1)); simpl; eexists; (split; [reflexivity|]);
      simpl; unfold calls, sleeps; rewrite ?omap_app; simpl; rewrite ?app_nil_r;
      repeat split; reflexivity.
Qed.

Lemma rgp_loop_no_throw retries D :
  forall k a last s,
  match fst (retryGetPositions_loop retries D k a last s) with
  | Exc e => e = TError "Insufficient funds"
  | Ok _ => True
  end.
Proof.
  intros k. induction k as [|k IH]; intros a last s; [exact I|].
  simpl retryGetPositions_loop. rewrite gets_bind, bind_run.
  unfold catch. rewrite bind_run. unfold getPositionsFromPool, ext. cbv zeta.
  destruct (w_getPositionsFromPool (world s) (clock s) (poolAddress s)) as [l|e]; simpl.
  - destruct (Nat.ltb 0 (length l)); [exact I|].
    destruct (Nat.ltb a (retries - 1)); simpl; apply IH.
  - destruct (isInsufficientFunds e); [reflexivity|].
    destruct (Nat.ltb a (retries - 1)); simpl; apply IH.
Qed.

Lemma rgp_loop_fatal retries D :
  forall j k a last s e, (j < k)%nat ->
  (forall i, (i < j)%nat -> empty_or_transient (w_getPositionsFromPool (world s) (clock s + i) (poolAddress s))) ->
  w_getPositionsFromPool (world s) (clock s + j) (poolAddress s) = Exc e -> isInsufficientFunds e = true ->
  let r := retryGetPositions_loop retries D k a last s in
  fst r = Exc (TError "Insufficient funds") /\ clock (snd r) = (clock s + S j)%nat /\
  calls (trace (snd r)) = calls (trace s) ++ repeat CGetPositionsFromPool (S j).
Proof.
  intros j. induction j as [|j IH]; intros k a last s e Hj Htr He Hf;
    (destruct k as [|k]; [lia|]).
  - rewrite Nat.add_0_r in He. cbn zeta. simpl retryGetPositions_loop.
    rewrite gets_bind, bind_run. unfold catch. rewrite bind_run.
    unfold getPositionsFromPool, ext. cbv zeta. rewrite He. simpl. rewrite Hf. simpl.
    unfold calls. rewrite omap_app. split; [reflexivity|split; [lia|reflexivity]].
  - pose proof (Htr 0%nat ltac:(lia)) as Ht. rewrite Nat.add_0_r in Ht.
    destruct (rgp_step retries D k a last s Ht) as (s2 & Heq & Hc & Hw & Ha & Hcl & _).
    cbn zeta. rewrite Heq.
    destruct (IH k (S a) (match w_getPositionsFromPool (world s) (clock s) (poolAddress s) with Ok l => l | Exc _ => last end)
                s2 e) as (Hr & Hc' & Hcl'); [lia| | |exact Hf|].
    + intros i Hi. rewrite Hw, Ha, Hc.
      replace (S (clock s) + i)%nat with (clock s + S i)%nat by lia. apply Htr. lia.
    + rewrite Hw, Ha, Hc. replace (S (clock s) + j)%nat with (clock s + S j)%nat by lia.
      exact He.
    + split; [exact Hr|]. split.
      * rewrite Hc', Hc. lia.
      * rewrite Hcl', Hcl, <- app_assoc. reflexivity.
Qed.

Lemma rgp_loop_first retries D :
  forall j k a last s L, (j < k)%nat -> (a + k)%nat = retries ->
  (forall i, (i < j)%nat -> empty_or_transient (w_getPositionsFromPool (world s) (clock s + i) (poolAddress s))) ->
  w_getPositionsFromPool (world s) (clock s + j) (poolAddress s) = Ok L -> L <> [] ->
  let r := retryGetPositions_loop retries D k a last s in
  fst r = Ok L /\ clock (snd r) = (clock s + S j)%nat /\
  calls (trace (snd r)) = calls (trace s) ++ repeat CGetPositionsFromPool (S j) /\
  sleeps (trace (snd r)) = sleeps (trace s) ++ repeat D j.
Proof.
  intros j. induction j as [|j IH]; intros k a last s L Hj Hak Htr HL Hne;
    (destruct k as [|k]; [lia|]).
  - rewrite Nat.add_0_r in HL. cbn zeta. simpl retryGetPositions_loop.
    rewrite gets_bind, bind_run. unfold catch. rewrite bind_run.
    unfold getPositionsFromPool, ext. cbv zeta. rewrite HL. simpl.
    destruct L as [|p L]; [congruence|]. simpl.
    unfold calls, sleeps. rewrite !omap_app. simpl. rewrite app_nil_r.
    repeat split; lia || reflexivity.
  - pose proof (Htr 0%nat ltac:(lia)) as Ht. rewrite Nat.add_0_r in Ht.
    destruct (rgp_step retries D k a last s Ht) as (s2 & Heq & Hc & Hw & Ha & Hcl & Hsl).
    cbn zeta. rewrite Heq.
    destruct (IH k (S a) (match w_getPositionsFromPool (world s) (clock s) (poolAddress s) with Ok l => l | Exc _ => last end)
                s2 L) as (Hr & Hc' & Hcl' & Hsl'); [lia|lia| | |exact Hne|].
    + intros i Hi. rewrite Hw, Ha, Hc.
      replace (S (clock s) + i)%nat with (clock s + S i)%nat by lia. apply Htr. lia.
    + rewrite Hw, Ha, Hc. replace (S (clock s) + j)%nat with (clock s + S j)%nat by lia.
      exact HL.
    + assert (Hp : Nat.ltb a (retries - 1) = true) by (apply Nat.ltb_lt; lia).
      rewrite Hp in Hsl. repeat split.
      * exact Hr.
      * rewrite Hc', Hc. lia.
      * rewrite Hcl', Hcl, <- app_assoc. reflexivity.
      * rewrite Hsl', Hsl, <- app_assoc. reflexivity.
Qed.

Lemma rgp_loop_exhausted retries D :
  forall k a s, (a + k)%nat = retries ->
  (forall i, (i < k)%nat -> empty_or_transient (w_getPositionsFromPool (world s) (clock s + i) (poolAddress s))) ->
  let r := retryGetPositions_loop retries D k a [] s in
  fst r = Ok [] /\ clock (snd r) = (clock s + k)%nat /\
  calls (trace (snd r)) = calls (trace s) ++ repeat CGetPositionsFromPool k /\
  sleeps (trace (snd r)) = sleeps (trace s) ++ repeat D (k - 1).
Proof.
  intros k. induction k as [|k IH]; intros a s Hak Htr.
  - simpl. rewrite Nat.add_0_r, !app_nil_r. auto.
  - pose proof (Htr 0%nat ltac:(lia)) as Ht. rewrite Nat.add_0_r in Ht.
    destruct (rgp_step retries D k a [] s Ht) as (s2 & Heq & Hc & Hw & Ha & Hcl & Hsl).
    assert (Hl : match w_getPositionsFromPool (world s) (clock s) (poolAddress s) with Ok l => l | Exc _ => [] end = []).
    { destruct (w_getPositionsFromPool (world s) (clock s) (poolAddress s)); [exact Ht|reflexivity]. }
    cbn zeta. rewrite Heq, Hl.
    destruct (IH (S a) s2) as (Hr & Hc' & Hcl' & Hsl'); [lia| |].
    + intros i Hi. rewrite Hw, Ha, Hc.
      replace (S (clock s) + i)%nat with (clock s + S i)%nat by lia. apply Htr. lia.
    + repeat split.
      * exact Hr.
      * rewrite Hc', Hc. lia.
      * rewrite Hcl', Hcl, <- app_assoc. reflexivity.
      * rewrite Hsl', Hsl, <- app_assoc. f_equal.
        destruct k as [|k].
        -- replace (Nat.ltb a (retries - 1)) with false by (symmetry; apply Nat.ltb_ge; lia).
           reflexivity.
        -- replace (Nat.ltb a (retries - 1)) with true by (symmetry; apply Nat.ltb_lt; lia).
           simpl. rewrite Nat.sub_0_r. reflexivity.
Qed.

(** X1.  [retryGetPositions] never throws anything but
    [Error('Insufficient funds')]: every other failure of the position
    query is swallowed.  It throws that error as soon as a query fails
    with an error whose message includes ['insufficient funds'] (the
    earlier queries having answered no position or failed otherwise),
    after exactly that many queries. *)
Theorem retryGetPositions_only_fatal retries D s :
  match fst (retryGetPositions retries D s) with
  | Exc e => e = TError "Insufficient funds"
  | Ok _ => True
  end /\
  (forall j e, (j < retries)%nat ->
     (forall i, (i < j)%nat ->
        empty_or_transient (w_getPositionsFromPool (world s) (clock s + i) (poolAddress s))) ->
     w_getPositionsFromPool (world s) (clock s + j) (poolAddress s) = Exc e ->
     isInsufficientFunds e = true ->
     let r := retryGetPositions retries D s in
     fst r = Exc (TError "Insufficient funds") /\ clock (snd r) = (clock s + S j)%nat /\
     calls (trace (snd r)) = calls (trace s) ++ repeat CGetPositionsFromPool (S j)).
Proof.
  split.
  - apply rgp_loop_no_throw.
  - intros j e Hj Htr He Hf. apply (rgp_loop_fatal retries D j retries 0 [] s e); assumption.
Qed.

Lemma retryGetPositions_only_fatal_witness :
  let r := retryGetPositions 3 5000
             (ex_state (Some ex_pool) 100 120 (defaultConfig (js_decimal 5 2))
                (steady_world 1 1 1 (Ok (mkBin 0 1)) (Exc (TError "Transfer: insufficient funds for rent"))
                   (Ok ex_removed) (Ok ex_pair))) in
  fst r = Exc (TError "Insufficient funds") /\ clock (snd r) = 1%nat /\
  calls (trace (snd r)) = [CGetPositionsFromPool].
Proof.
  destruct (retryGetPositions_only_fatal 3 5000
              (ex_state (Some ex_pool) 100 120 (defaultConfig (js_decimal 5 2))
                 (steady_world 1 1 1 (Ok (mkBin 0 1)) (Exc (TError "Transfer: insufficient funds for rent"))
                    (Ok ex_removed) (Ok ex_pair)))) as [_ H].
  apply (H 0%nat (TError "Transfer: insufficient funds for rent")).
  - lia.
  - intros i Hi. lia.
  - reflexivity.
  - vm_compute. reflexivity.
Defined.

(** X2.  If the first [j] position queries (with [j < retries]) answer no
    position or fail with an error other than insufficient funds, and
    query [j] answers a non-empty list [L], [retryGetPositions] returns
    [L] after exactly [j + 1] queries, having paused [delayMs] after each
    of the [j] unsuccessful ones and not after the last. *)
Theorem retryGetPositions_first_nonempty retries D s j L :
  (j < retries)%nat ->
  (forall i, (i < j)%nat ->
     empty_or_transient (w_getPositionsFromPool (world s) (clock s + i) (poolAddress s))) ->
  w_getPositionsFromPool (world s) (clock s + j) (poolAddress s) = Ok L -> L <> [] ->
  let r := retryGetPositions retries D s in
  fst r = Ok L /\ clock (snd r) = (clock s + S j)%nat /\
  calls (trace (snd r)) = calls (trace s) ++ repeat CGetPositionsFromPool (S j) /\
  sleeps (trace (snd r)) = sleeps (trace s) ++ repeat D j.
Proof.
  intros Hj Htr HL Hne. apply (rgp_loop_first retries D j retries 0 [] s L); auto.
Qed.

Lemma retryGetPositions_first_nonempty_witness :
  let r := retryGetPositions 5 5000 (ex_flaky (Some ex_pool) 3) in
  fst r = Ok [mkPosition 100 120] /\ clock (snd r) = 4%nat /\
  calls (trace (snd r)) = repeat CGetPositionsFromPool 4 /\
  sleeps (trace (snd r)) = [5000; 5000; 5000]%Z.
Proof.
  apply (retryGetPositions_first_nonempty 5 5000 (ex_flaky (Some ex_pool) 3) 3 [mkPosition 100 120]).
  - lia.
  - intros i Hi. destruct i as [|[|[|i]]]; try lia; vm_compute; reflexivity.
  - reflexivity.
  - discriminate.
Defined.

(** X3.  If all [retries] position queries answer no position or fail
    with an error other than insufficient funds, [retryGetPositions]
    returns the empty list after exactly [retries] queries and
    [retries - 1] pauses: there is no pause after the last query. *)
Theorem retryGetPositions_exhausted retries D s :
  (forall i, (i < retries)%nat ->
     empty_or_transient (w_getPositionsFromPool (world s) (clock s + i) (poolAddress s))) ->
  let r := retryGetPositions retries D s in
  fst r = Ok [] /\ clock (snd r) = (clock s + retries)%nat /\
  calls (trace (snd r)) = calls (trace s) ++ repeat CGetPositionsFromPool retries /\
  sleeps (trace (snd r)) = sleeps (trace s) ++ repeat D (retries - 1).
Proof. intros Htr. apply (rgp_loop_exhausted retries D retries 0 s); auto. Qed.

Lemma retryGetPositions_exhausted_witness :
  let r := retryGetPositions 3 5000 (ex_flaky (Some ex_pool) 10) in
  fst r = Ok [] /\ clock (snd r) = 3%nat /\
  calls (trace (snd r)) = repeat CGetPositionsFromPool 3 /\
  sleeps (trace (snd r)) = [5000; 5000]%Z.
Proof.
  apply (retryGetPositions_exhausted 3 5000 (ex_flaky (Some ex_pool) 10)).
  intros i Hi. destruct i as [|[|[|i]]]; try lia; vm_compute; reflexivity.
Defined.

(** ** Pauses of [retry] *)

Lemma retry_step_sleeps {A} c (sel : World -> nat -> Res A) N D k a last s e :
  sel (world s) (clock s) = Exc e -> isInsufficientFunds e = false ->
  exists s2,
    retry_loop (ext c sel) N D (S k) a last s = retry_loop (ext c sel) N D k (S a) e s2 /\
    clock s2 = S (clock s) /\ world s2 = world s /\
    calls (trace s2) = calls (trace s) ++ [c] /\
    sleeps (trace s2) = sleeps (trace s) ++ (if Nat.ltb a (N - 1) then [D] else []).
Proof.
  intros E Hf. simpl retry_loop. unfold catch, ext at 1. cbv zeta.
  rewrite E. simpl. rewrite Hf.
  destruct (Nat.ltb a (N - 1)); simpl; eexists; (split; [reflexivity|]);
    simpl; unfold calls, sleeps; rewrite ?omap_app; simpl; rewrite ?app_nil_r;
    repeat split; reflexivity.
Qed.

Lemma retry_loop_first_ok {A} c (sel : World -> nat -> Res A) N D :
  forall j k a last s x, (j < k)%nat -> (a + k)%nat = N ->
  (forall i, (i < j)%nat -> transient (sel (world s) (clock s + i))) ->
  sel (world s) (clock s + j) = Ok x ->
  let r := retry_loop (ext c sel) N D k a last s in
  fst r = Ok x /\ clock (snd r) = (clock s + S j)%nat /\
  calls (trace (snd r)) = calls (trace s) ++ repeat c (S j) /\
  sleeps (trace (snd r)) = sleeps (trace s) ++ repeat D j.
Proof.
  intros j. induction j as [|j IH]; intros k a last s x Hj Hak Htr Hx;
    (destruct k as [|k]; [lia|]).
  - rewrite Nat.add_0_r in Hx. cbn zeta. simpl retry_loop. unfold catch, ext.
    cbv zeta. rewrite Hx. simpl. unfold calls, sleeps. rewrite !omap_app. simpl.
    rewrite app_nil_r. repeat split; lia || reflexivity.
  - pose proof (Htr 0%nat ltac:(lia)) as Ht. rewrite Nat.add_0_r in Ht.
    destruct (sel (world s) (clock s)) as [y|e] eqn:E; [contradiction|].
    destruct (retry_step_sleeps c sel N D k a last s e E Ht) as (s2 & Heq & Hc & Hw & Hcl & Hsl).
    cbn zeta. rewrite Heq.
    destruct (IH k (S a) e s2 x) as (Hr & Hc' & Hcl' & Hsl'); [lia|lia| | |].
    + intros i Hi. rewrite Hw, Hc.
      replace (S (clock s) + i)%nat with (clock s + S i)%nat by lia. apply Htr. lia.
    + rewrite Hw, Hc. replace (S (clock s) + j)%nat with (clock s + S j)%nat by lia. exact Hx.
    + assert (Hp : Nat.ltb a (N - 1) = true) by (apply Nat.ltb_lt; lia).
      rewrite Hp in Hsl. repeat split.
      * exact Hr.
      * rewrite Hc', Hc. lia.
      * rewrite Hcl', Hcl, <- app_assoc. reflexivity.
      * rewrite Hsl', Hsl, <- app_assoc. reflexivity.
Qed.

Lemma retry_loop_all_fail_sleeps {A} c (sel : World -> nat -> Res A) N D :
  forall k a last s, (a + k)%nat = N ->
  (forall i, (i < k)%nat -> transient (sel (world s) (clock s + i))) ->
  sleeps (trace (snd (retry_loop (ext c sel) N D k a last s))) = sleeps (trace s) ++ repeat D (k - 1).
Proof.
  intros k. induction k as [|k IH]; intros a last s Hak Htr.
  - simpl. rewrite app_nil_r. reflexivity.
  - pose proof (Htr 0%nat ltac:(lia)) as Ht. rewrite Nat.add_0_r in Ht.
    destruct (sel (world s) (clock s)) as [y|e] eqn:E; [contradiction|].
    destruct (retry_step_sleeps c sel N D k a last s e E Ht) as (s2 & Heq & Hc & Hw & _ & Hsl).
    rewrite Heq, (IH (S a) e s2); [|lia|].
    + rewrite Hsl, <- app_assoc. f_equal. destruct k as [|k].
      * replace (Nat.ltb a (N - 1)) with false by (symmetry; apply Nat.ltb_ge; lia). reflexivity.
      * replace (Nat.ltb a (N - 1)) with true by (symmetry; apply Nat.ltb_lt; lia).
        simpl. rewrite Nat.sub_0_r. reflexivity.
    + intros i Hi. rewrite Hw, Hc.
      replace (S (clock s) + i)%nat with (clock s + S i)%nat by lia. apply Htr. lia.
Qed.

(** X4.  [retry] of an external call with [N] attempts and delay [D]: if
    the first [j] attempts ([j < N]) fail with errors other than
    insufficient funds and attempt [j] succeeds with [x], it returns [x]
    after exactly [j + 1] attempts and [j] pauses of [D]; if all [N]
    attempts fail that way, it pauses [N - 1] times, never after the last
    attempt. *)
Theorem retry_pauses {A} (c : CallTag) (sel : World -> nat -> Res A) (N : nat) (D : Z) (s : St) :
  (forall j x, (j < N)%nat ->
     (forall i, (i < j)%nat -> transient (sel (world s) (clock s + i))) ->
     sel (world s) (clock s + j) = Ok x ->
     let r := retry (ext c sel) N D s in
     fst r = Ok x /\ clock (snd r) = (clock s + S j)%nat /\
     calls (trace (snd r)) = calls (trace s) ++ repeat c (S j) /\
     sleeps (trace (snd r)) = sleeps (trace s) ++ repeat D j) /\
  ((forall i, (i < N)%nat -> transient (sel (world s) (clock s + i))) ->
     sleeps (trace (snd (retry (ext c sel) N D s))) = sleeps (trace s) ++ repeat D (N - 1)).
Proof.
  split.
  - intros j x Hj Htr Hx. apply (retry_loop_first_ok c sel N D j N 0 _ s x); auto.
  - intros Htr. apply (retry_loop_all_fail_sleeps c sel N D N 0); auto.
Qed.

Lemma retry_pauses_witness :
  (let r := retry (getActiveBin "pool") 5 5000 (ex_flaky (Some ex_pool) 2) in
   fst r = Ok (mkBin 110 1) /\ clock (snd r) = 3%nat /\
   calls (trace (snd r)) = repeat CGetActiveBin 3 /\ sleeps (trace (snd r)) = [5000; 5000]%Z) /\
  sleeps (trace (snd (retry (getActiveBin "pool") 5 5000 ex_bin_timeout))) = repeat 5000%Z 4.
Proof.
  split.
  - destruct (retry_pauses CGetActiveBin (fun w n => w_getActiveBin w n "pool") 5 5000
                (ex_flaky (Some ex_pool) 2)) as [H _].
    apply (H 2%nat (mkBin 110 1)).
    + lia.
    + intros i Hi. destruct i as [|[|i]]; try lia; vm_compute; reflexivity.
    + reflexivity.
  - destruct (retry_pauses CGetActiveBin (fun w n => w_getActiveBin w n "pool") 5 5000
                ex_bin_timeout) as [_ H].
    apply H. intros i Hi. vm_compute. reflexivity.
Defined.

(** ** Pool details *)

Lemma append_nil_l t : "" +:+ t = t.
Proof. reflexivity. Qed.

Lemma append_cons c s t : String c s +:+ t = String c (s +:+ t).
Proof. reflexivity. Qed.

Lemma append_nil_r s : s +:+ "" = s.
Proof. induction s as [|c s IH]; [reflexivity|]. rewrite append_cons, IH. reflexivity. Qed.

Lemma split_on_nonempty d s : split_on d s <> [].
Proof.
  destruct s as [|c s]; simpl; [discriminate|].
  destruct (Ascii.eqb c d); [discriminate|]. destruct (split_on d s); discriminate.
Qed.

(** [(x + d + y).split(d)] is [x.split(d)] followed by [y.split(d)]. *)
Lemma split_on_app d x y : split_on d (x +:+ String d y) = split_on d x ++ split_on d y.
Proof.
  induction x as [|c x IH]; [rewrite append_nil_l|rewrite append_cons]; simpl.
  - rewrite Ascii.eqb_refl. reflexivity.
  - rewrite IH. destruct (Ascii.eqb c d); [reflexivity|].
    destruct (split_on d x) as [|r rs] eqn:E; [exfalso; exact (split_on_nonempty d x E)|].
    reflexivity.
Qed.

Lemma includes_single_cons c d s :
  includes (String c s) (String d EmptyString) = false ->
  c <> d /\ includes s (String d EmptyString) = false.
Proof.
  unfold includes. cbn [String.index String.prefix].
  destruct (ascii_dec d c) as [->|Hne].
  - destruct s; discriminate.
  - destruct (String.index 0 (String d EmptyString) s); [discriminate|]. auto.
Qed.

Lemma split_on_none d s : includes s (String d EmptyString) = false -> split_on d s = [s].
Proof.
  induction s as [|c s IH]; intros H; [reflexivity|].
  apply includes_single_cons in H as [Hne H]. simpl. rewrite IH by exact H.
  apply Ascii.eqb_neq in Hne. rewrite Hne. reflexivity.
Qed.

Lemma getPoolDetails_fetch_fail addr s e :
  w_fetchPair (world s) (clock s) addr = Exc e ->
  getPoolDetails addr s =
    (Ok None, record_event (EvAlert ERROR (AmError "In getPoolDetails" e))
                (record_event (EvCall CFetchPair false) (tick s))).
Proof. intros He. unfold getPoolDetails, catch. rewrite ext_bind, He. reflexivity. Qed.

(** X5.  [getPoolDetails] never throws.  When the request (or the
    decoding of its answer) fails with [e], it sends one error alert
    ['In getPoolDetails'] with [e] and returns [undefined]. *)
Theorem getPoolDetails_never_throws addr s :
  is_ok (fst (getPoolDetails addr s)) = true /\
  (forall e, w_fetchPair (world s) (clock s) addr = Exc e ->
     getPoolDetails addr s =
       (Ok None, record_event (EvAlert ERROR (AmError "In getPoolDetails" e))
                   (record_event (EvCall CFetchPair false) (tick s)))).
Proof.
  split.
  - unfold getPoolDetails, catch.
    match goal with
    | |- is_ok (fst (match ?x with _ => _ end)) = true => destruct x as [[a|e] s']
    end; reflexivity.
  - apply getPoolDetails_fetch_fail.
Qed.

Lemma getPoolDetails_never_throws_witness :
  getPoolDetails "pool" (ex_flaky (Some ex_pool) 1) =
    (Ok None, record_event (EvAlert ERROR (AmError "In getPoolDetails" (TError "HTTP 503")))
                (record_event (EvCall CFetchPair false) (tick (ex_flaky (Some ex_pool) 1)))).
Proof.
  destruct (getPoolDetails_never_throws "pool" (ex_flaky (Some ex_pool) 1)) as [_ H].
  apply H. reflexivity.
Defined.

(** X6.  When the pool answers, [getPoolDetails] reads the two symbols
    off the pool name: a name [A-B], or [A-B-...], with [A] and [B]
    non-empty and free of ['-'], gives the details with symbols [A] and
    [B], the bin step and the two mints of the answer, and no alert.  A
    name without ['-'] gives [undefined] and one error alert
    ['Invalid pool name format: <name>']. *)
Theorem getPoolDetails_name addr s data :
  w_fetchPair (world s) (clock s) addr = Ok data ->
  let s1 := record_event (EvCall CFetchPair true) (tick s) in
  (forall a b rest,
     name data = a +:+ "-" +:+ b +:+ rest -> a <> "" -> b <> "" ->
     includes a "-" = false -> includes b "-" = false ->
     (rest = "" \/ exists r, rest = "-" +:+ r) ->
     getPoolDetails addr s =
       (Ok (Some (mkPoolDetails (bin_step data) (mint_x data) (mint_y data) a b)), s1)) /\
  (includes (name data) "-" = false ->
     getPoolDetails addr s =
       (Ok None, record_event (EvAlert ERROR (AmError "In getPoolDetails"
                   (TError ("Invalid pool name format: " +:+ name data)))) s1)).
Proof.
  intros Hd s1. unfold getPoolDetails, catch. rewrite ext_bind, Hd. cbv zeta. split.
  - intros a b rest Hn Ha Hb Hia Hib Hr. rewrite Hn. rewrite ?append_cons, ?append_nil_l.
    rewrite split_on_app, (split_on_none _ a Hia).
    assert (Hp : exists tl, split_on "-" (b +:+ rest) = b :: tl).
    { destruct Hr as [->|[r ->]].
      - rewrite append_nil_r, (split_on_none _ b Hib). eauto.
      - rewrite ?append_cons, ?append_nil_l. rewrite split_on_app, (split_on_none _ b Hib). eauto. }
    destruct Hp as [tl ->]. simpl.
    apply String.eqb_neq in Ha, Hb. rewrite Ha, Hb. reflexivity.
  - intros Hn. rewrite (split_on_none _ _ Hn). simpl.
    destruct (String.eqb (name data) ""); reflexivity.
Qed.

Lemma getPoolDetails_name_witness :
  getPoolDetails "pool" (ex_flaky (Some ex_pool) 0) =
    (Ok (Some (mkPoolDetails 25 "mintA" "mintB" "SOL" "USDC")),
     record_event (EvCall CFetchPair true) (tick (ex_flaky (Some ex_pool) 0))).
Proof.
  destruct (getPoolDetails_name "pool" (ex_flaky (Some ex_pool) 0) ex_pair eq_refl) as [H _].
  apply (H "SOL" "USDC" ""); try reflexivity; try discriminate. left. reflexivity.
Defined.

(** ** Edge cases of the controller *)

(** X7.  [rebalance] with an empty pool address makes no external call:
    it sends one error alert ['In rebalanceMeteora'] with
    [Error('No working pool address found')] and returns [false], the
    rest of the state unchanged. *)
Theorem rebalance_no_address s :
  poolAddress s = "" ->
  rebalance s =
    (Ok false, record_event (EvAlert ERROR (AmError "In rebalanceMeteora"
                                              (TError "No working pool address found"))) s).
Proof.
  intros H. unfold rebalance, catch, rebalance_body. rewrite gets_bind, H. reflexivity.
Qed.

Lemma rebalance_no_address_witness :
  rebalance ex_no_address =
    (Ok false, record_event (EvAlert ERROR (AmError "In rebalanceMeteora"
                                              (TError "No working pool address found"))) ex_no_address).
Proof. apply rebalance_no_address. reflexivity. Defined.

(** X8.  [removeLiquidity] removes the position before it reads the pool
    details: without loaded pool details, when the removal succeeds it is
    not undone and [removeLiquidity] then throws the
    ['Pool details not initialized'] error, with no other call. *)
Theorem removeLiquidity_without_details s r :
  _poolDetails s = None ->
  w_removeLiquidity (world s) (clock s) (poolAddress s) = Ok r ->
  removeLiquidity s =
    (Exc (TError "Pool details not initialized. Make sure to call MeteoraRebalancer.loadInitialState()"),
     record_event (EvCall CRemoveLiquidity true) (tick s)).
Proof.
  intros Hpd Hr. unfold removeLiquidity. rewrite gets_bind.
  rewrite (bind_ok _ _ s r _ (retry_first_ok CRemoveLiquidity
             (fun w n => w_removeLiquidity w n (poolAddress s)) 5 5000 s r ltac:(lia) Hr)).
  rewrite bind_run. unfold poolDetails_get. simpl. rewrite Hpd. reflexivity.
Qed.

Lemma removeLiquidity_without_details_witness :
  removeLiquidity (ex_flaky None 0) =
    (Exc (TError "Pool details not initialized. Make sure to call MeteoraRebalancer.loadInitialState()"),
     record_event (EvCall CRemoveLiquidity true) (tick (ex_flaky None 0))).
Proof. apply (removeLiquidity_without_details _ ex_removed); reflexivity. Defined.

(** X9.  [addLiquidity] with a native balance below
    [NATIVE_TOKEN_FEE_BUFFER] stops after reading that balance: it sends
    one error alert with the balance and throws
    ['Insufficient native token balance for position creation fees']
    without reading the token balances or adding liquidity. *)
Theorem addLiquidity_low_native s b :
  w_getBalance (world s) (clock s) None = Ok b -> (b < cfg_feeBuffer (cfg s))%Q ->
  addLiquidity s =
    (Exc (TError "Insufficient native token balance for position creation fees"),
     record_event (EvAlert ERROR (AmInsufficientNative b))
       (record_event (EvCall (CGetBalance None) true) (tick s))).
Proof.
  intros Hb Hlt.
  assert (Hv : verifyNativeTokenBufferForPositions s =
    (Exc (TError "Insufficient native token balance for position creation fees"),
     record_event (EvAlert ERROR (AmInsufficientNative b))
       (record_event (EvCall (CGetBalance None) true) (tick s)))).
  { unfold verifyNativeTokenBufferForPositions, getBalance.
    rewrite ext_bind, Hb, gets_bind, cfg_rec_tick. apply qlt_spec in Hlt. rewrite Hlt.
    reflexivity. }
  unfold addLiquidity. apply bind_exc. unfold addLiquidity_deposit. apply bind_exc, Hv.
Qed.

Lemma addLiquidity_low_native_witness :
  fst (addLiquidity (ex_state (Some ex_pool) 100 120 (defaultConfig (js_decimal 5 2))
         (steady_world 1 1 (1 # 100) (Ok (mkBin 0 1)) (Ok []) (Ok ex_removed) (Ok ex_pair))))
  = Exc (TError "Insufficient native token balance for position creation fees").
Proof.
  rewrite (addLiquidity_low_native _ (1 # 100)); [reflexivity|reflexivity|].
  vm_compute. reflexivity.
Defined.

(** X10.  When [getPoolDetails] gives [undefined] (failed request or bad
    pool name), [loadInitialState] clears the cached pool details, even
    ones loaded before, and throws
    ['Failed to get pool details for pool: <address>'] with no further
    call. *)
Theorem loadInitialState_no_details s s1 :
  getPoolDetails (poolAddress s) s = (Ok None, s1) ->
  loadInitialState s =
    (Exc (TError ("Failed to get pool details for pool: " +:+ poolAddress s)),
     set_poolDetails None s1).
Proof.
  intros Hg. unfold loadInitialState. rewrite bind_run. unfold loadInitialState_setup.
  rewrite gets_bind, (bind_ok _ _ _ _ _ Hg). reflexivity.
Qed.

Lemma loadInitialState_no_details_witness :
  loadInitialState (ex_flaky (Some ex_pool) 1) =
    (Exc (TError "Failed to get pool details for pool: pool"),
     set_poolDetails None
       (record_event (EvAlert ERROR (AmError "In getPoolDetails" (TError "HTTP 503")))
          (record_event (EvCall CFetchPair false) (tick (ex_flaky (Some ex_pool) 1))))).
Proof. apply loadInitialState_no_details. vm_compute. reflexivity. Defined.

(** ** Reading balances back from the log text *)

Lemma append_assoc x y z : (x +:+ y) +:+ z = x +:+ (y +:+ z).
Proof.
  induction x as [|c x IH]; [reflexivity|]. rewrite !append_cons, IH. reflexivity.
Qed.

Lemma prefix_app sub y : String.prefix sub (sub +:+ y) = true.
Proof.
  induction sub as [|a sub IH]; [destruct y; reflexivity|].
  rewrite append_cons. cbn [String.prefix]. destruct (ascii_dec a a); [exact IH|congruence].
Qed.

Lemma prefix_true sub s : String.prefix sub s = true -> exists y, s = sub +:+ y.
Proof.
  revert s. induction sub as [|a sub IH]; intros s H; [exists s; reflexivity|].
  destruct s as [|b s]; [discriminate|]. cbn [String.prefix] in H.
  destruct (ascii_dec a b) as [->|]; [|discriminate].
  destruct (IH s H) as [y ->]. exists y. reflexivity.
Qed.

(** [s.includes(sub)] holds exactly when [sub] occurs in [s]. *)
Lemma includes_spec s sub : includes s sub = true <-> exists x y, s = x +:+ sub +:+ y.
Proof.
  unfold includes. split.
  - revert sub. induction s as [|b s IH]; intros sub H.
    + destruct sub; [|discriminate]. exists "", "". reflexivity.
    + cbn [String.index] in H. destruct (String.prefix sub (String b s)) eqn:Ep.
      * destruct (prefix_true _ _ Ep) as [y Hy]. exists "", y. exact Hy.
      * destruct (String.index 0 sub s) eqn:Ei; [|discriminate].
        specialize (IH sub). rewrite Ei in IH. destruct (IH eq_refl) as (x & y & ->).
        exists (String b x), y. reflexivity.
  - intros (x & y & ->). induction x as [|a x IH].
    + rewrite append_nil_l. destruct (sub +:+ y) eqn:E.
      * destruct sub; [|discriminate]. reflexivity.
      * cbn [String.index]. rewrite <- E, prefix_app. reflexivity.
    + rewrite append_cons. cbn [String.index].
      destruct (String.prefix sub _); [reflexivity|].
      destruct (String.index 0 sub (x +:+ sub +:+ y)); [reflexivity|discriminate].
Qed.

Lemma includes_app_l x y sub : includes y sub = true -> includes (x +:+ y) sub = true.
Proof.
  rewrite !includes_spec. intros (a & b & ->). exists (x +:+ a), b.
  rewrite append_assoc. reflexivity.
Qed.

Lemma includes_single_cons_inv c d s :
  c <> d -> includes s (String d EmptyString) = false ->
  includes (String c s) (String d EmptyString) = false.
Proof.
  intros Hne H. unfold includes in *. cbn [String.index String.prefix].
  destruct (ascii_dec d c); [congruence|].
  destruct (String.index 0 (String d EmptyString) s); [discriminate|reflexivity].
Qed.

Lemma includes_char_app x y d :
  includes x (String d EmptyString) = false -> includes y (String d EmptyString) = false ->
  includes (x +:+ y) (String d EmptyString) = false.
Proof.
  induction x as [|c x IH]; intros Hx Hy; [exact Hy|].
  apply includes_single_cons in Hx as [Hne Hx]. rewrite append_cons.
  apply includes_single_cons_inv; auto.
Qed.

Lemma all_chars_includes p s d :
  all_chars p s = true -> p d = false -> includes s (String d EmptyString) = false.
Proof.
  induction s as [|c s IH]; intros H Hd; [reflexivity|].
  simpl in H. apply andb_prop in H as [Hc H].
  apply includes_single_cons_inv; [congruence|auto].
Qed.

Lemma colon_free_no_colon_space s :
  includes s ":" = false -> includes s ": " = false.
Proof.
  intros H. destruct (includes s ": ") eqn:E; [|reflexivity].
  apply includes_spec in E as (x & y & ->). rewrite <- H. symmetry.
  apply includes_spec. exists x, (" " +:+ y). reflexivity.
Qed.

Lemma colon_free_not_ending s h0 : includes s ":" = false -> s <> h0 +:+ ":".
Proof.
  intros H ->. assert (E : includes (h0 +:+ ":") ":" = true).
  { apply includes_spec. exists h0, "". rewrite append_nil_r. reflexivity. }
  congruence.
Qed.

Lemma span_all p x y :
  all_chars p x = true -> match y with String c _ => p c = false | EmptyString => True end ->
  span p (x +:+ y) = (x, y).
Proof.
  induction x as [|c x IH]; intros Hx Hy.
  - rewrite append_nil_l. destruct y as [|c y]; [reflexivity|]. simpl. rewrite Hy. reflexivity.
  - simpl in Hx. apply andb_prop in Hx as [Hc Hx]. rewrite append_cons. simpl.
    rewrite Hc, IH by assumption. reflexivity.
Qed.

Lemma span_stop p x c t :
  p c = false -> span p (x +:+ String c t) = (fst (span p x), snd (span p x) +:+ String c t).
Proof.
  intros Hc. induction x as [|a x IH].
  - simpl. rewrite Hc. reflexivity.
  - rewrite append_cons. simpl. destruct (p a).
    + rewrite IH. destruct (span p x). reflexivity.
    + reflexivity.
Qed.

Lemma span_decomp p s : s = fst (span p s) +:+ snd (span p s).
Proof.
  induction s as [|c s IH]; [reflexivity|]. simpl. destruct (p c).
  - destruct (span p s) as [a b]. simpl in *. rewrite append_cons, <- IH. reflexivity.
  - reflexivity.
Qed.

Lemma strip_some lit s r : strip lit s = Some r -> s = lit +:+ r.
Proof.
  revert s. induction lit as [|c lit IH]; intros s H.
  - injection H as ->. reflexivity.
  - destruct s as [|c' s]; [discriminate|]. simpl in H.
    destruct (Ascii.eqb c c') eqn:E; [|discriminate]. apply Ascii.eqb_eq in E as ->.
    rewrite append_cons, <- (IH s H). reflexivity.
Qed.

Lemma strip_app lit t : strip lit (lit +:+ t) = Some t.
Proof.
  induction lit as [|c lit IH]; [reflexivity|].
  rewrite append_cons. cbn [strip]. rewrite Ascii.eqb_refl. exact IH.
Qed.

Lemma balance_match_cons a s :
  balance_match (String a s) =
    match balance_match_at (String a s) with Some m => Some m | None => balance_match s end.
Proof. reflexivity. Qed.

Lemma balance_match_at_nonword a s : is_word a = false -> balance_match_at (String a s) = None.
Proof. intros H. unfold balance_match_at. simpl. rewrite H. reflexivity. Qed.

Lemma balance_match_nonword a s : is_word a = false -> balance_match (String a s) = balance_match s.
Proof. intros H. rewrite balance_match_cons, balance_match_at_nonword by exact H. reflexivity. Qed.

(** No match can start inside a text [h] without [': '] that is followed
    by a character [c] which is neither a word character nor [':'] (and
    not a space after a final [':']). *)
Lemma balance_match_skip h c t :
  includes h ": " = false -> is_word c = false -> c <> ":"%char ->
  (c = " "%char -> forall h0, h <> h0 +:+ ":") ->
  balance_match (h +:+ String c t) = balance_match (String c t).
Proof.
  induction h as [|a h IH]; intros Hh Hw Hcol Hsp; [reflexivity|].
  rewrite append_cons, balance_match_cons.
  assert (Hat : balance_match_at (String a (h +:+ String c t)) = None).
  { destruct (is_word a) eqn:Ea; [|apply balance_match_at_nonword, Ea].
    pose proof (span_decomp is_word h) as Hd.
    assert (Hs : span is_word (String a (h +:+ String c t)) =
                 (String a (fst (span is_word h)), snd (span is_word h) +:+ String c t)).
    { cbn [span]. rewrite Ea, (span_stop _ _ _ _ Hw). destruct (span is_word h); reflexivity. }
    unfold balance_match_at. rewrite Hs.
    destruct (span is_word h) as [g r]. cbn [fst snd] in *. cbn beta iota. cbn [String.eqb].
    destruct r as [|d r].
    - rewrite append_nil_l. cbn [strip].
      destruct (Ascii.eqb ":" c) eqn:E; [apply Ascii.eqb_eq in E; congruence|reflexivity].
    - rewrite append_cons. cbn [strip].
      destruct (Ascii.eqb ":" d) eqn:E1; [|reflexivity]. apply Ascii.eqb_eq in E1. subst d.
      destruct r as [|e r].
      + rewrite append_nil_l. cbn [strip].
        destruct (Ascii.eqb " " c) eqn:E2; [|reflexivity]. apply Ascii.eqb_eq in E2.
        exfalso. apply (Hsp (eq_sym E2) (String a g)). rewrite Hd. reflexivity.
      + rewrite append_cons. cbn [strip].
        destruct (Ascii.eqb " " e) eqn:E2; [|reflexivity]. apply Ascii.eqb_eq in E2. subst e.
        exfalso. assert (E : includes (String a h) ": " = true).
        { apply includes_spec. exists (String a g), r. rewrite Hd. reflexivity. }
        congruence. }
  rewrite Hat. apply IH.
  - destruct (includes h ": ") eqn:E; [|reflexivity].
    apply includes_spec in E as (x & y & ->). rewrite <- Hh. symmetry.
    apply includes_spec. exists (String a x), y. reflexivity.
  - exact Hw.
  - exact Hcol.
  - intros Hc h0 ->. apply (Hsp Hc (String a h0)). reflexivity.
Qed.

(** The text [logBalances] writes before the first symbol holds no match. *)
Lemma balance_match_head timestamp prefix body :
  includes timestamp ": " = false -> includes prefix ":" = false ->
  balance_match ("[" +:+ timestamp +:+ "] " +:+ prefix +:+ "  -  " +:+ body) = balance_match body.
Proof.
  intros Hts Hp. rewrite append_cons, append_nil_l, balance_match_nonword by reflexivity.
  change ("] " +:+ prefix +:+ "  -  " +:+ body) with (String "]" (" " +:+ prefix +:+ "  -  " +:+ body)).
  rewrite balance_match_skip; [|exact Hts|reflexivity|discriminate|discriminate].
  rewrite balance_match_nonword by reflexivity.
  change (" " +:+ prefix +:+ "  -  " +:+ body) with (String " " (prefix +:+ "  -  " +:+ body)).
  rewrite balance_match_nonword by reflexivity.
  change ("  -  " +:+ body) with (String " " (String " " (String "-" (String " " (String " " body))))).
  rewrite balance_match_skip; [| apply colon_free_no_colon_space, Hp | reflexivity | discriminate
                               | intros _ h0; apply colon_free_not_ending, Hp].
  rewrite !balance_match_nonword by reflexivity. reflexivity.
Qed.

(** The groups of the pattern on [A: a, B: b] followed by a character
    that is not a digit or a dot, or by nothing. *)
Lemma balance_match_body symA sa symB sb rest :
  symA <> "" -> all_chars is_word symA = true -> symB <> "" -> all_chars is_word symB = true ->
  sa <> "" -> all_chars is_num_char sa = true -> sb <> "" -> all_chars is_num_char sb = true ->
  match rest with String c _ => is_num_char c = false | EmptyString => True end ->
  balance_match (symA +:+ ": " +:+ sa +:+ ", " +:+ symB +:+ ": " +:+ sb +:+ rest) =
    Some (symA, sa, symB, sb).
Proof.
  intros HA HwA HB HwB Ha Hna Hb Hnb Hr.
  assert (Hat : balance_match_at (symA +:+ ": " +:+ sa +:+ ", " +:+ symB +:+ ": " +:+ sb +:+ rest) =
                Some (symA, sa, symB, sb)).
  { apply String.eqb_neq in HA, HB, Ha, Hb.
    unfold balance_match_at. rewrite span_all; [|exact HwA|reflexivity]. cbn beta iota.
    rewrite HA, strip_app, span_all; [|exact Hna|reflexivity]. cbn beta iota.
    rewrite Ha, strip_app, span_all; [|exact HwB|reflexivity]. cbn beta iota.
    rewrite HB, strip_app, span_all; [|exact Hnb|exact Hr]. cbn beta iota.
    rewrite Hb. reflexivity. }
  destruct symA as [|a symA]; [congruence|]. rewrite append_cons, balance_match_cons.
  rewrite <- append_cons, Hat. reflexivity.
Qed.

Lemma balance_match_at_colon s m : balance_match_at s = Some m -> exists x y, s = x +:+ ": " +:+ y.
Proof.
  unfold balance_match_at. pose proof (span_decomp is_word s) as Hd.
  destruct (span is_word s) as [g r]. simpl in Hd.
  destruct (String.eqb g ""); [discriminate|].
  destruct (strip ": " r) as [r2|] eqn:E; [|discriminate].
  intros _. exists g, r2. rewrite Hd, (strip_some _ _ _ E). reflexivity.
Qed.

Lemma balance_match_colon s m : balance_match s = Some m -> exists x y, s = x +:+ ": " +:+ y.
Proof.
  induction s as [|a s IH]; [discriminate|]. rewrite balance_match_cons.
  destruct (balance_match_at (String a s)) eqn:E.
  - intros _. exact (balance_match_at_colon _ _ E).
  - intros H. destruct (IH H) as (x & y & ->). exists (String a x), y. reflexivity.
Qed.

Lemma extract_logBalances_core timestamp prefix symA sa symB sb rest :
  includes timestamp ": " = false -> includes prefix ":" = false ->
  symA <> "" -> all_chars is_word symA = true -> symB <> "" -> all_chars is_word symB = true ->
  sa <> "" -> all_chars is_num_char sa = true -> sb <> "" -> all_chars is_num_char sb = true ->
  match rest with String c _ => is_num_char c = false | EmptyString => True end ->
  extractBalanceFromLog ("[" +:+ timestamp +:+ "] " +:+ prefix +:+ "  -  " +:+ symA +:+ ": "
    +:+ sa +:+ ", " +:+ symB +:+ ": " +:+ sb +:+ rest) = Some (parseFloat_num sa, parseFloat_num sb).
Proof.
  intros Hts Hp HA HwA HB HwB Ha Hna Hb Hnb Hr. unfold extractBalanceFromLog.
  rewrite balance_match_head, balance_match_body by assumption. reflexivity.
Qed.

Lemma logBalances_line_eq timestamp prefix symA sa symB sb :
  logBalances_line timestamp prefix symA sa symB sb =
    "[" +:+ timestamp +:+ "] " +:+ prefix +:+ "  -  " +:+ symA +:+ ": "
      +:+ sa +:+ ", " +:+ symB +:+ ": " +:+ sb +:+ "".
Proof. unfold logBalances_line. rewrite append_nil_r. reflexivity. Qed.

Lemma logBalances_entry_eq timestamp prefix symA sa symB sb :
  logBalances_entry timestamp prefix symA sa symB sb =
    "[" +:+ timestamp +:+ "] " +:+ prefix +:+ "  -  " +:+ symA +:+ ": "
      +:+ sa +:+ ", " +:+ symB +:+ ": " +:+ sb +:+ newline.
Proof. unfold logBalances_entry, logBalances_line. rewrite !append_assoc. reflexivity. Qed.

(** X11.  [extractBalanceFromLog] reads back what [logBalances] writes:
    for a timestamp without [': '], a prefix without [':'], non-empty
    symbols of word characters and balances rendered as non-empty strings
    of digits and dots, it returns the [parseFloat] of the two rendered
    balances, both on the line and on the entry with its final ["\n"].
    On a message without [': '] it returns [null]. *)
Theorem extractBalanceFromLog_logBalances timestamp prefix symA sa symB sb :
  includes timestamp ": " = false -> includes prefix ":" = false ->
  symA <> "" -> all_chars is_word symA = true -> symB <> "" -> all_chars is_word symB = true ->
  sa <> "" -> all_chars is_num_char sa = true -> sb <> "" -> all_chars is_num_char sb = true ->
  extractBalanceFromLog (logBalances_line timestamp prefix symA sa symB sb) =
    Some (parseFloat_num sa, parseFloat_num sb) /\
  extractBalanceFromLog (logBalances_entry timestamp prefix symA sa symB sb) =
    Some (parseFloat_num sa, parseFloat_num sb) /\
  (forall msg, includes msg ": " = false -> extractBalanceFromLog msg = None).
Proof.
  intros Hts Hp HA HwA HB HwB Ha Hna Hb Hnb. split; [|split].
  - rewrite logBalances_line_eq. apply extract_logBalances_core; auto.
  - rewrite logBalances_entry_eq. apply extract_logBalances_core; auto. reflexivity.
  - intros msg Hm. unfold extractBalanceFromLog.
    destruct (balance_match msg) as [m|] eqn:E; [|reflexivity].
    apply balance_match_colon in E as (x & y & ->).
    assert (Hi : includes (x +:+ ": " +:+ y) ": " = true) by (apply includes_spec; eauto).
    congruence.
Qed.

Lemma extractBalanceFromLog_logBalances_witness :
  extractBalanceFromLog (logBalances_line "2024-05-01T12:00:00.000Z" TOTAL_BALANCE_PREFIX
      "SOL" "1.25" "USDC" "180") = Some (Some (125 # 100), Some 180)%Q /\
  extractBalanceFromLog (logBalances_entry "2024-05-01T12:00:00.000Z" TOTAL_BALANCE_PREFIX
      "SOL" "1.25" "USDC" "180") = Some (Some (125 # 100), Some 180)%Q /\
  (forall msg, includes msg ": " = false -> extractBalanceFromLog msg = None).
Proof.
  apply extractBalanceFromLog_logBalances; (reflexivity || discriminate).
Defined.

(** ** [LocalFileStorage] *)

Lemma filter_filter {X} (f g : X -> bool) l :
  List.filter g (List.filter f l) = List.filter (fun x => f x && g x) l.
Proof.
  induction l as [|a l IH]; [reflexivity|]. simpl.
  destruct (f a); simpl; [destruct (g a); simpl; rewrite IH|]; auto.
Qed.

Lemma filter_nil_forall {X} (h : X -> bool) l :
  List.filter h l = [] <-> Forall (fun y => h y = false) l.
Proof.
  induction l as [|a l IH]; simpl.
  - split; auto.
  - rewrite Forall_cons. destruct (h a); split.
    + discriminate.
    + intros [H _]. discriminate.
    + intros H. split; [reflexivity|]. apply IH, H.
    + intros [_ H]. apply IH, H.
Qed.

Lemma filter_snoc_inv {X} (h : X -> bool) L l1 x :
  List.filter h L = l1 ++ [x] ->
  exists pre post, L = pre ++ x :: post /\ h x = true /\ Forall (fun y => h y = false) post.
Proof.
  revert l1. induction L as [|a L IH]; intros l1 H.
  - simpl in H. destruct l1; discriminate.
  - simpl in H. destruct (h a) eqn:Ha.
    + destruct l1 as [|b l1].
      * injection H as -> Hn. exists [], L. split; [reflexivity|]. split; [exact Ha|].
        apply filter_nil_forall, Hn.
      * injection H as <- H. destruct (IH l1 H) as (pre & post & -> & Hx & Hp).
        exists (a :: pre), post. auto.
    + destruct (IH l1 H) as (pre & post & -> & Hx & Hp). exists (a :: pre), post. auto.
Qed.

(** The line the local reader returns when [l] is the last line of the
    file that includes the prefix and carries a date not after
    [timestamp]. *)
Lemma lf_last_of Date_parse content prefix timestamp pre l post :
  split_on "010"%char content = pre ++ l :: post ->
  includes l prefix && lf_line_ok Date_parse timestamp l = true ->
  Forall (fun line => includes line prefix && lf_line_ok Date_parse timestamp line = false) post ->
  lf_getLastLogByPrefix Date_parse (Some content) prefix timestamp = Some l.
Proof.
  intros Hs Hl Hpost. unfold lf_getLastLogByPrefix. cbv zeta.
  rewrite filter_filter, Hs, List.filter_app. simpl. rewrite Hl.
  apply filter_nil_forall in Hpost. rewrite Hpost.
  change [l] with ([] ++ [l]). rewrite app_assoc, last_snoc.
  destruct (String.eqb l "") eqn:E; [|reflexivity].
  apply String.eqb_eq in E. subst l. apply andb_prop in Hl as [_ Hl]. discriminate.
Qed.

Lemma lf_result_line Date_parse content prefix timestamp l :
  lf_getLastLogByPrefix Date_parse (Some content) prefix timestamp = Some l ->
  exists pre post, split_on "010"%char content = pre ++ l :: post /\
    includes l prefix && lf_line_ok Date_parse timestamp l = true /\
    Forall (fun line => includes line prefix && lf_line_ok Date_parse timestamp line = false) post.
Proof.
  unfold lf_getLastLogByPrefix. cbv zeta. rewrite filter_filter.
  destruct (last _) as [x|] eqn:E; [|discriminate].
  destruct (String.eqb x ""); [discriminate|]. intros Hx. injection Hx as <-.
  apply last_Some in E as [l1 E]. apply filter_snoc_inv in E as (pre & post & Hs & Hx & Hp).
  eauto.
Qed.

(** X12.  [LocalFileStorage.getLastLogByPrefix] returns [null] when the
    file does not exist or no line of it both includes the prefix and
    carries (in its first [[...]]) a valid date not after [timestamp];
    otherwise it returns the last such line. *)
Theorem lf_getLastLogByPrefix_last Date_parse content prefix timestamp :
  let ok line := includes line prefix && lf_line_ok Date_parse timestamp line in
  lf_getLastLogByPrefix Date_parse None prefix timestamp = None /\
  (Forall (fun line => ok line = false) (split_on "010"%char content) ->
     lf_getLastLogByPrefix Date_parse (Some content) prefix timestamp = None) /\
  (forall pre l post, split_on "010"%char content = pre ++ l :: post -> ok l = true ->
     Forall (fun line => ok line = false) post ->
     lf_getLastLogByPrefix Date_parse (Some content) prefix timestamp = Some l) /\
  (forall l, lf_getLastLogByPrefix Date_parse (Some content) prefix timestamp = Some l ->
     exists pre post, split_on "010"%char content = pre ++ l :: post /\ ok l = true /\
       Forall (fun line => ok line = false) post).
Proof.
  intros ok. split; [reflexivity|]. split; [|split].
  - intros Hn. destruct (lf_getLastLogByPrefix Date_parse (Some content) prefix timestamp)
      as [l|] eqn:E; [|reflexivity].
    destruct (lf_result_line _ _ _ _ _ E) as (pre & post & Hs & Hl & _).
    rewrite Hs, Forall_app, Forall_cons in Hn. destruct Hn as (_ & Hn & _).
    unfold ok in Hn. congruence.
  - intros pre l post. apply lf_last_of.
  - intros l. apply lf_result_line.
Qed.


(** Appending a line that holds no newline, to a file that is missing,
    empty or ends in a newline, makes it the last line of the file; the
    result ends in a newline again. *)
Lemma lf_append_core Date_parse file L prefix timestamp :
  (file = None \/ file = Some "" \/ exists c0, file = Some (c0 +:+ newline)) ->
  includes L newline = false ->
  includes L prefix && lf_line_ok Date_parse timestamp L = true ->
  lf_getLastLogByPrefix Date_parse (lf_append file (L +:+ newline)) prefix timestamp = Some L.
Proof.
  intros Hf HL Hok.
  assert (Hs : exists pre, split_on "010"%char (default "" file +:+ (L +:+ newline)) = pre ++ [L; ""]).
  { destruct Hf as [-> | [-> | [c0 ->]]]; simpl default.
    - exists []. rewrite append_nil_l. unfold newline.
      rewrite split_on_app, split_on_none by exact HL. reflexivity.
    - exists []. rewrite append_nil_l. unfold newline.
      rewrite split_on_app, split_on_none by exact HL. reflexivity.
    - exists (split_on "010"%char c0). rewrite append_assoc. unfold newline.
      rewrite append_cons, append_nil_l, split_on_app, split_on_app, (split_on_none _ L) by exact HL.
      reflexivity. }
  destruct Hs as [pre Hs]. unfold lf_append. eapply lf_last_of; [exact Hs | exact Hok |].
  constructor; [|constructor].
  change (lf_line_ok Date_parse timestamp "") with false. apply andb_false_r.
Qed.

Lemma lazy_to_bracket_app ts u :
  includes ts "]" = false -> all_chars (fun c => negb (is_line_terminator c)) ts = true ->
  lazy_to_bracket (ts +:+ String "]" u) = Some ts.
Proof.
  induction ts as [|c ts IH]; intros Hb Ht; [reflexivity|].
  apply includes_single_cons in Hb as [Hc Hb].
  cbn [all_chars] in Ht. apply andb_prop in Ht as [Hc' Ht].
  rewrite append_cons. cbn [lazy_to_bracket].
  rewrite (proj2 (Ascii.eqb_neq c "]") Hc).
  destruct (is_line_terminator c); [discriminate|]. rewrite IH by assumption. reflexivity.
Qed.

Lemma bracket_timestamp_head ts u :
  includes ts "]" = false -> all_chars (fun c => negb (is_line_terminator c)) ts = true ->
  bracket_timestamp ("[" +:+ ts +:+ "] " +:+ u) = Some ts.
Proof.
  intros Hb Ht. change ("[" +:+ ts +:+ "] " +:+ u) with (String "[" (ts +:+ String "]" (" " +:+ u))).
  cbn [bracket_timestamp]. rewrite Ascii.eqb_refl, lazy_to_bracket_app by assumption.
  reflexivity.
Qed.

(** X13.  [LocalFileStorage.append] then [getLastLogByPrefix]: after
    appending a line followed by a newline to a file that is missing,
    empty or ends in a newline, when the line holds no newline, includes
    the prefix and carries a valid date not after [timestamp], the
    reader returns exactly that line; and the file ends in a newline
    again, so appends of such lines compose. *)
Theorem lf_append_getLastLogByPrefix Date_parse file L prefix timestamp :
  (file = None \/ file = Some "" \/ exists c0, file = Some (c0 +:+ newline)) ->
  includes L newline = false -> includes L prefix = true ->
  lf_line_ok Date_parse timestamp L = true ->
  lf_getLastLogByPrefix Date_parse (lf_append file (L +:+ newline)) prefix timestamp = Some L /\
  exists c, lf_append file (L +:+ newline) = Some (c +:+ newline).
Proof.
  intros Hf HL Hp Hok. split.
  - apply lf_append_core; [exact Hf | exact HL |]. rewrite Hp, Hok. reflexivity.
  - exists (default "" file +:+ L). unfold lf_append. rewrite append_assoc. reflexivity.
Qed.

(** X14.  [logBalances] then [getLastBalance] on the local file: a
    balance entry appended to a file that is missing, empty or ends in a
    newline is read back, as the [parseFloat] of its two rendered
    balances, by [getLastBalance] at any [timestamp] not before the
    entry's date, when the entry's timestamp is a valid date holding no
    [']'], no line terminator and no [': '], the symbols are non-empty
    words and the balances non-empty strings of digits and dots. *)
Theorem lf_getLastBalance_logBalances Date_parse file timestamp ts t symA sa symB sb :
  (file = None \/ file = Some "" \/ exists c0, file = Some (c0 +:+ newline)) ->
  ts <> "" -> includes ts ": " = false -> includes ts "]" = false ->
  all_chars (fun c => negb (is_line_terminator c)) ts = true ->
  Date_parse ts = Some t -> (t <= timestamp)%Z ->
  symA <> "" -> all_chars is_word symA = true -> symB <> "" -> all_chars is_word symB = true ->
  sa <> "" -> all_chars is_num_char sa = true -> sb <> "" -> all_chars is_num_char sb = true ->
  lf_getLastBalance Date_parse
    (lf_append file (logBalances_entry ts TOTAL_BALANCE_PREFIX symA sa symB sb)) timestamp =
    Some (parseFloat_num sa, parseFloat_num sb).
Proof.
  intros Hf Hne Hts Htb Htl Hd Ht HA HwA HB HwB Ha Hna Hb Hnb.
  unfold lf_getLastBalance, logBalances_entry. rewrite lf_append_core.
  - change (String.eqb (logBalances_line ts TOTAL_BALANCE_PREFIX symA sa symB sb) "") with false.
    rewrite logBalances_line_eq. apply extract_logBalances_core; auto.
  - exact Hf.
  - unfold logBalances_line, newline.
    repeat match goal with |- includes (_ +:+ _) _ = false => apply includes_char_app end;
      first [reflexivity | eapply all_chars_includes; [eassumption | reflexivity]].
  - apply andb_true_intro. split.
    + unfold logBalances_line. apply includes_app_l, includes_app_l, includes_app_l.
      apply includes_spec. exists "", ("  -  " +:+ symA +:+ ": " +:+ sa +:+ ", " +:+ symB +:+ ": " +:+ sb).
      reflexivity.
    + unfold lf_line_ok, logBalances_line. rewrite bracket_timestamp_head by assumption.
      rewrite Hd. apply String.eqb_neq in Hne. rewrite Hne. apply Z.leb_le, Ht.
Qed.

Lemma lf_getLastLogByPrefix_last_witness :
  lf_getLastLogByPrefix ex_date_parse (Some ex_log) "Total" 150 = Some ex_line1 /\
  lf_getLastLogByPrefix ex_date_parse (Some ex_log) "Balance" 150 = None.
Proof.
  destruct (lf_getLastLogByPrefix_last ex_date_parse ex_log "Total" 150) as (_ & _ & H & _).
  destruct (lf_getLastLogByPrefix_last ex_date_parse ex_log "Balance" 150) as (_ & H' & _ & _).
  split.
  - apply (H ["x"] ex_line1 [ex_line2; ""]); [reflexivity | reflexivity |].
    repeat constructor.
  - apply H'. repeat constructor.
Defined.

Lemma lf_append_getLastLogByPrefix_witness :
  lf_getLastLogByPrefix ex_date_parse (lf_append (Some ex_log) (ex_line3 +:+ newline)) "Total" 150
    = Some ex_line3 /\
  exists c, lf_append (Some ex_log) (ex_line3 +:+ newline) = Some (c +:+ newline).
Proof.
  apply lf_append_getLastLogByPrefix; [right; right; exists ex_log_body; reflexivity | reflexivity ..].
Defined.

Lemma lf_getLastBalance_logBalances_witness :
  lf_getLastBalance ex_date_parse
    (lf_append (Some ex_log)
       (logBalances_entry "2024-05-01T12:00:00.000Z" TOTAL_BALANCE_PREFIX "SOL" "1.25" "USDC" "180"))
    150 = Some (Some (125 # 100), Some 180)%Q.
Proof.
  apply (lf_getLastBalance_logBalances ex_date_parse (Some ex_log) 150 "2024-05-01T12:00:00.000Z" 100);
    first [right; right; exists ex_log_body; reflexivity | reflexivity | discriminate | lia].
Defined.

(** ** [CloudWatchStorage] *)

Lemma insert_desc_forall (P : OutputLogEvent -> Prop) x l :
  P x -> Forall P l -> Forall P (insert_desc x l).
Proof.
  intros Hx Hl. induction Hl as [|y l Hy Hl IH]; simpl; [constructor; auto|].
  destruct (Z.leb (ev_key y) (ev_key x)); constructor; auto.
Qed.

Lemma sort_desc_forall (P : OutputLogEvent -> Prop) l : Forall P l -> Forall P (sort_desc l).
Proof.
  induction 1; simpl; [constructor|]. apply insert_desc_forall; auto.
Qed.

Lemma insert_desc_head x l :
  Forall (fun y => (ev_key y <= ev_key x)%Z) l -> insert_desc x l = x :: l.
Proof.
  destruct 1 as [|y l Hy _]; [reflexivity|]. simpl.
  apply Z.leb_le in Hy. rewrite Hy. reflexivity.
Qed.

(** The head of the sorted list is the first element of greatest key. *)
Lemma sort_desc_first pre e post :
  Forall (fun y => (ev_key y < ev_key e)%Z) pre ->
  Forall (fun y => (ev_key y <= ev_key e)%Z) post ->
  exists tl, sort_desc (pre ++ e :: post) = e :: tl.
Proof.
  intros Hpre Hpost. induction Hpre as [|a pre Ha Hpre IH].
  - exists (sort_desc post). simpl. apply insert_desc_head, sort_desc_forall, Hpost.
  - destruct IH as [tl IH]. exists (insert_desc a tl). simpl. rewrite IH. simpl.
    destruct (Z.leb (ev_key e) (ev_key a)) eqn:E; [apply Z.leb_le in E; lia | reflexivity].
Qed.

Lemma first_greatest (l : list OutputLogEvent) :
  l <> [] ->
  exists pre e post, l = pre ++ e :: post /\
    Forall (fun y => (ev_key y < ev_key e)%Z) pre /\
    Forall (fun y => (ev_key y <= ev_key e)%Z) post.
Proof.
  induction l as [|a l IH]; intros Hn; [congruence|].
  destruct l as [|b l].
  - exists [], a, []. auto.
  - destruct IH as (pre & e & post & Hl & Hpre & Hpost); [discriminate|].
    destruct (Z_lt_le_dec (ev_key a) (ev_key e)) as [Hlt|Hge].
    + exists (a :: pre), e, post. rewrite Hl. auto.
    + exists [], a, (b :: l). split; [reflexivity|]. split; [constructor|].
      rewrite Hl, Forall_app, Forall_cons. split; [|split].
      * eapply Forall_impl; [exact Hpre|]. simpl. lia.
      * lia.
      * eapply Forall_impl; [exact Hpost|]. simpl. lia.
Qed.

Lemma cw_result_of events prefix timestamp pre e post :
  List.filter (cw_matches prefix timestamp) (default [] events) = pre ++ e :: post ->
  Forall (fun y => (ev_key y < ev_key e)%Z) pre ->
  Forall (fun y => (ev_key y <= ev_key e)%Z) post ->
  cw_getLastLogByPrefix events prefix timestamp =
    match ev_message e with Some m => if String.eqb m "" then None else Some m | None => None end.
Proof.
  intros HF Hpre Hpost. unfold cw_getLastLogByPrefix. cbv zeta. rewrite HF.
  destruct (sort_desc_first pre e post Hpre Hpost) as [tl ->]. reflexivity.
Qed.

(** X15.  [CloudWatchStorage.getLastLogByPrefix] keeps the events whose
    message includes the prefix and whose timestamp (0 when missing) is
    not after [timestamp]; it returns [null] when there is none, and
    otherwise the message of the first of them, in the order of the
    response, with the greatest timestamp ([null] for a missing or empty
    message). *)
Theorem cw_getLastLogByPrefix_latest events prefix timestamp :
  let F := List.filter (cw_matches prefix timestamp) (default [] events) in
  (F = [] -> cw_getLastLogByPrefix events prefix timestamp = None) /\
  (F <> [] -> exists pre e post, F = pre ++ e :: post /\
     Forall (fun y => (ev_key y < ev_key e)%Z) pre /\
     Forall (fun y => (ev_key y <= ev_key e)%Z) post) /\
  (forall pre e post, F = pre ++ e :: post ->
     Forall (fun y => (ev_key y < ev_key e)%Z) pre ->
     Forall (fun y => (ev_key y <= ev_key e)%Z) post ->
     cw_getLastLogByPrefix events prefix timestamp =
       match ev_message e with Some m => if String.eqb m "" then None else Some m | None => None end).
Proof.
  intros F. split; [|split].
  - intros HF. unfold cw_getLastLogByPrefix. cbv zeta. fold F. rewrite HF. reflexivity.
  - apply first_greatest.
  - intros pre e post. apply cw_result_of.
Qed.

(** X16.  [getLastBalance] on CloudWatch reads back a balance entry: when
    the first latest event kept by the filter carries a [logBalances]
    entry (timestamp without [': '], non-empty word symbols, non-empty
    digit-and-dot balances), it returns the [parseFloat] of its two
    balances. *)
Theorem cw_getLastBalance_logBalances events timestamp pre k ts symA sa symB sb post :
  let e := mkLogEvent k (Some (logBalances_entry ts TOTAL_BALANCE_PREFIX symA sa symB sb)) in
  List.filter (cw_matches TOTAL_BALANCE_PREFIX timestamp) (default [] events) = pre ++ e :: post ->
  Forall (fun y => (ev_key y < ev_key e)%Z) pre ->
  Forall (fun y => (ev_key y <= ev_key e)%Z) post ->
  includes ts ": " = false ->
  symA <> "" -> all_chars is_word symA = true -> symB <> "" -> all_chars is_word symB = true ->
  sa <> "" -> all_chars is_num_char sa = true -> sb <> "" -> all_chars is_num_char sb = true ->
  cw_getLastBalance events timestamp = Some (parseFloat_num sa, parseFloat_num sb).
Proof.
  intros e HF Hpre Hpost Hts HA HwA HB HwB Ha Hna Hb Hnb.
  unfold cw_getLastBalance. rewrite (cw_result_of _ _ _ _ _ _ HF Hpre Hpost). unfold e. cbn [ev_message].
  change (String.eqb (logBalances_entry ts TOTAL_BALANCE_PREFIX symA sa symB sb) "") with false.
  rewrite logBalances_entry_eq. apply extract_logBalances_core; auto. reflexivity.
Qed.

Lemma cw_getLastLogByPrefix_latest_witness :
  cw_getLastLogByPrefix (Some ex_events) TOTAL_BALANCE_PREFIX 150 = Some ex_entry /\
  cw_getLastLogByPrefix (Some ex_events) "Action" 150 = None.
Proof.
  destruct (cw_getLastLogByPrefix_latest (Some ex_events) TOTAL_BALANCE_PREFIX 150) as (_ & _ & H).
  destruct (cw_getLastLogByPrefix_latest (Some ex_events) "Action" 150) as (H' & _ & _).
  split.
  - apply (H [ex_ev_old] ex_ev_a [ex_ev_b]); [reflexivity | ..];
      repeat (apply List.Forall_cons; [unfold ex_ev_old, ex_ev_a, ex_ev_b, ev_key; simpl; lia|]); apply List.Forall_nil.
  - apply H'. reflexivity.
Defined.

Lemma cw_getLastBalance_logBalances_witness :
  cw_getLastBalance (Some ex_events) 150 = Some (Some (125 # 100), Some 180)%Q.
Proof.
  apply (cw_getLastBalance_logBalances (Some ex_events) 150 [ex_ev_old] (Some 120%Z)
           "2024-05-01T12:00:00.000Z" "SOL" "1.25" "USDC" "180" [ex_ev_b]);
    first [reflexivity | discriminate | repeat (apply List.Forall_cons; [unfold ex_ev_old, ex_ev_a, ex_ev_b, ev_key; simpl; lia|]); apply List.Forall_nil].
Defined.

Lemma keeps_wcp_tick s : (world (tick s), cfg (tick s), _poolDetails (tick s)) = (world s, cfg s, _poolDetails s).
Proof. reflexivity. Qed.

Lemma keeps_wcp_rec ev s :
  True -> (world (record_event ev s), cfg (record_event ev s), _poolDetails (record_event ev s)) =
          (world s, cfg s, _poolDetails s).
Proof. reflexivity. Qed.

(** A successful [getUsableBalances]: the two balance reads at the
    current clock and the next one, and the map built from them. *)
Lemma getUsableBalances_inv s nb s2 :
  getUsableBalances s = (Ok nb, s2) ->
  exists pd a b,
    _poolDetails s = Some pd /\
    w_getBalance (world s) (clock s) (Some (assetAMintAddress pd)) = Ok a /\
    w_getBalance (world s) (S (clock s)) (Some (assetBMintAddress pd)) = Ok b /\
    nb = <[assetBSymbol pd := usable (cfg_feeBuffer (cfg s)) (assetBSymbol pd) b]>
           (<[assetASymbol pd := usable (cfg_feeBuffer (cfg s)) (assetASymbol pd) a]>
             (∅ : gmap string Q)) /\
    s2 = record_event (EvCall (CGetBalance (Some (assetBMintAddress pd))) true)
           (tick (record_event (EvCall (CGetBalance (Some (assetAMintAddress pd))) true) (tick s))).
Proof.
  unfold getUsableBalances. intros H.
  apply bind_ok_inv in H as (pd & s0 & Hpd & H).
  unfold poolDetails_get in Hpd. destruct (_poolDetails s) as [pd0|] eqn:Epd; [|discriminate].
  injection Hpd as -> <-.
  apply bind_ok_inv in H as (a & s1 & Ha & H).
  apply bind_ok_inv in H as (b & s3 & Hb & H).
  rewrite gets_bind in H. injection H as <- <-.
  unfold getBalance, ext in Ha, Hb.
  destruct (w_getBalance (world s) (clock s) (Some (assetAMintAddress pd))) as [a0|e] eqn:Ea;
    [|discriminate].
  injection Ha as -> <-.
  simpl in Hb.
  destruct (w_getBalance (world s) (S (clock s)) (Some (assetBMintAddress pd))) as [b0|e] eqn:Eb;
    [|discriminate].
  injection Hb as -> <-.
  exists pd, a, b. repeat split; assumption.
Qed.

(** X17.  Every run of [rebalancePosition] that returns ends with the
    two balance reads of a [getUsableBalances] run (its last two
    external calls, made after the swap at the final clock minus 2 and
    minus 1, on the same world), the ['Total usable balances after
    rebalancing'] entry of [logBalances] holding the usable balances
    built from those two reads, and the 5000 ms pause. *)
Theorem rebalancePosition_logs_total s s' :
  rebalancePosition s = (Ok tt, s') ->
  exists pd a b t0,
    _poolDetails s = Some pd /\ (2 <= clock s')%nat /\
    w_getBalance (world s) (clock s' - 2) (Some (assetAMintAddress pd)) = Ok a /\
    w_getBalance (world s) (clock s' - 1) (Some (assetBMintAddress pd)) = Ok b /\
    let fb := cfg_feeBuffer (cfg s) in
    let nb := <[assetBSymbol pd := usable fb (assetBSymbol pd) b]>
                (<[assetASymbol pd := usable fb (assetASymbol pd) a]> (∅ : gmap string Q)) in
    trace s' = t0 ++
      [EvCall (CGetBalance (Some (assetAMintAddress pd))) true;
       EvCall (CGetBalance (Some (assetBMintAddress pd))) true;
       EvLog (LgBalances (bal nb (assetASymbol pd)) (bal nb (assetBSymbol pd))
                TOTAL_BALANCE_PREFIX (assetASymbol pd) (assetBSymbol pd));
       EvSleep 5000].
Proof.
  intros H. pose proof (keeps_rebalancePosition (fun st => (world st, cfg st, _poolDetails st))
    (fun _ => True) keeps_wcp_tick keeps_wcp_rec (fun _ _ => I) s) as Kr.
  rewrite H in Kr. cbn [snd] in Kr. unfold rebalancePosition in H.
  apply bind_ok_inv in H as (pd & s0 & Hpd & H).
  unfold poolDetails_get in Hpd. destruct (_poolDetails s) as [pd0|] eqn:Epd; [|discriminate].
  injection Hpd as -> <-.
  repeat (apply bind_ok_inv in H as (? & ? & ? & H); cbv beta zeta in H).
  match goal with
  | Hu : getUsableBalances ?s1 = (Ok ?nb, ?s2), He : emit _ ?s2 = (Ok _, ?s3) |- _ =>
      unfold emit, modify in He; injection He as _ <-;
      unfold sleep, emit, modify in H; injection H as <-;
      destruct (getUsableBalances_inv _ _ _ Hu) as (pd1 & a & b & Hp1 & Ha & Hb & -> & ->);
      exists pd, a, b, (trace s1)
  end.
  cbn [world cfg _poolDetails trace clock record_event tick] in *.
  injection Kr as Hw Hc Hp. rewrite Hp1 in Hp. injection Hp as ->.
  split; [reflexivity|]. split; [lia|].
  rewrite !Nat.sub_succ, !Nat.sub_0_r.
  rewrite <- Hw, <- Hc. split; [exact Ha|]. split; [exact Hb|].
  cbv zeta. rewrite <- !app_assoc. reflexivity.
Qed.

Lemma rebalancePosition_logs_total_witness :
  fst (rebalancePosition (ex_flaky (Some ex_pool) 0)) = Ok tt /\
  exists pd a b t0,
    _poolDetails (ex_flaky (Some ex_pool) 0) = Some pd /\
    (2 <= clock (snd (rebalancePosition (ex_flaky (Some ex_pool) 0))))%nat /\
    w_getBalance (world (ex_flaky (Some ex_pool) 0))
      (clock (snd (rebalancePosition (ex_flaky (Some ex_pool) 0))) - 2)
      (Some (assetAMintAddress pd)) = Ok a /\
    w_getBalance (world (ex_flaky (Some ex_pool) 0))
      (clock (snd (rebalancePosition (ex_flaky (Some ex_pool) 0))) - 1)
      (Some (assetBMintAddress pd)) = Ok b /\
    let fb := cfg_feeBuffer (cfg (ex_flaky (Some ex_pool) 0)) in
    let nb := <[assetBSymbol pd := usable fb (assetBSymbol pd) b]>
                (<[assetASymbol pd := usable fb (assetASymbol pd) a]> (∅ : gmap string Q)) in
    trace (snd (rebalancePosition (ex_flaky (Some ex_pool) 0))) = t0 ++
      [EvCall (CGetBalance (Some (assetAMintAddress pd))) true;
       EvCall (CGetBalance (Some (assetBMintAddress pd))) true;
       EvLog (LgBalances (bal nb (assetASymbol pd)) (bal nb (assetBSymbol pd))
                TOTAL_BALANCE_PREFIX (assetASymbol pd) (assetBSymbol pd));
       EvSleep 5000].
Proof.
  split; [vm_compute; reflexivity|].
  apply rebalancePosition_logs_total. vm_compute. reflexivity.
Defined.
